(** * Unit absorption spectrum generation (mag1c/target_generation.py)

    A shallow embedding of the numerical pipeline of
    [src/mag1c/target_generation.py] and the properties its specification
    states about it.

    Numbers.  The program computes on binary64 values.  A finite value is
    modelled by the real number it stands for, and rounding is abstracted:
    sums, products, quotients, square roots and logarithms of finite
    values are exact.  Where the program can meet or produce the special
    values of IEEE-754 (a non-finite band descriptor, a division by zero,
    a logarithm of a non-positive number), values are of type [fval],
    which adds [PInf], [NInf] and [NaN] to the reals, with the arithmetic
    of IEEE-754 on them.  The range of binary64 is modelled where the
    formulas of the Gaussian response (source lines 100-103) can leave it:
    there a square, a product with the variance, an exponential or a
    quotient gives zero when the exact result is at most [2^-1075] in
    absolute value, half the smallest positive binary64 value, and an
    infinity when it reaches [2^1024].  Zero has no sign in the model; the program never divides by
    a negative zero. *)

From Stdlib Require Import Reals Lra Lia List Bool Arith.
Import ListNotations.

Open Scope R_scope.

(** * Part I: the program *)

(** ** Axis Index Mapper *)

(** [get_5deg_zenith_angle_index], source lines 8-10. *)
Definition get_5deg_zenith_angle_index (zenith_value : R) : R :=
  zenith_value / 5.

(** [get_5deg_sensor_height_index], source lines 12-29: the chain of
    [if]/[elif] tests, in the order of the source. *)
Definition get_5deg_sensor_height_index (sensor_value : R) : R :=
  if Rlt_dec sensor_value 1 then 0
  else if Rlt_dec sensor_value 2 then sensor_value - 1
  else if Rlt_dec sensor_value 4 then sensor_value / 2
  else if Rlt_dec sensor_value 10 then sensor_value / 6 + 4 / 3
  else if Rlt_dec sensor_value 20 then sensor_value / 10 + 2
  else if Rlt_dec sensor_value 200 then sensor_value / 180 + 35 / 9
  else 5.

(** [get_5deg_ground_altitude_index], source lines 31-36. *)
Definition get_5deg_ground_altitude_index (ground_value : R) : R :=
  if Rlt_dec ground_value 1 then 2 * ground_value else 1 + ground_value.

(** [get_5deg_water_vapor_index], source lines 38-40. *)
Definition get_5deg_water_vapor_index (water_value : R) : R := water_value.

(** [np.log2] on a positive real. *)
Definition log2 (x : R) : R := ln x / ln 2.

(** [get_5deg_methane_index], source lines 42-48. *)
Definition get_5deg_methane_index (methane_value : R) : R :=
  if Rle_dec methane_value 0 then 0
  else if Rlt_dec methane_value 1000 then methane_value / 1000
  else log2 (methane_value / 500).

(** [get_5deg_lookup_index], source lines 50-56: the 5x1 column of
    fractional indices, as the list of its five entries. *)
Definition get_5deg_lookup_index (zenith sensor ground water methane : R)
  : list R :=
  [ get_5deg_zenith_angle_index zenith;
    get_5deg_sensor_height_index sensor;
    get_5deg_ground_altitude_index ground;
    get_5deg_water_vapor_index water;
    get_5deg_methane_index methane ].

(** The two formulas of the methane mapper (source lines 47 and 48), named
    for the statement about the value where the source switches from one
    to the other. *)
Definition methane_linear_branch (v : R) : R := v / 1000.
Definition methane_log_branch (v : R) : R := log2 (v / 500).

(** The formula of each branch of the sensor-height mapper, counted from 0
    in the order of the source. *)
Definition sensor_segment (k : nat) (v : R) : R :=
  match k with
  | 0%nat => 0
  | 1%nat => v - 1
  | 2%nat => v / 2
  | 3%nat => v / 6 + 4 / 3
  | 4%nat => v / 10 + 2
  | 5%nat => v / 180 + 35 / 9
  | _ => 5
  end.

(** ** Values with the IEEE-754 specials *)

Inductive fval : Type :=
| Fin (r : R)
| PInf
| NInf
| NaN.

Inductive sign : Type := Neg | Zero | Pos.

Definition Rsign (r : R) : sign :=
  match total_order_T r 0 with
  | inleft (left _) => Neg
  | inleft (right _) => Zero
  | inright _ => Pos
  end.

(** [np.isfinite]. *)
Definition np_isfinite (x : fval) : bool :=
  match x with Fin _ => true | _ => false end.

Definition fneg (x : fval) : fval :=
  match x with
  | Fin r => Fin (- r)
  | PInf => NInf
  | NInf => PInf
  | NaN => NaN
  end.

Definition fadd (x y : fval) : fval :=
  match x, y with
  | NaN, _ | _, NaN => NaN
  | Fin a, Fin b => Fin (a + b)
  | PInf, NInf | NInf, PInf => NaN
  | PInf, _ | _, PInf => PInf
  | NInf, _ | _, NInf => NInf
  end.

Definition fsub (x y : fval) : fval := fadd x (fneg y).

(** An infinity times a finite value. *)
Definition inf_times (positive : bool) (a : R) : fval :=
  match Rsign a with
  | Pos => if positive then PInf else NInf
  | Neg => if positive then NInf else PInf
  | Zero => NaN
  end.

Definition fmul (x y : fval) : fval :=
  match x, y with
  | NaN, _ | _, NaN => NaN
  | Fin a, Fin b => Fin (a * b)
  | Fin a, PInf | PInf, Fin a => inf_times true a
  | Fin a, NInf | NInf, Fin a => inf_times false a
  | PInf, PInf | NInf, NInf => PInf
  | PInf, NInf | NInf, PInf => NInf
  end.

(** Division; a finite value over zero is an infinity of the sign of the
    numerator, and zero over zero is NaN. *)
Definition fdiv (x y : fval) : fval :=
  match x, y with
  | NaN, _ | _, NaN => NaN
  | Fin a, Fin b =>
      if Req_dec_T b 0 then
        match Rsign a with Pos => PInf | Neg => NInf | Zero => NaN end
      else Fin (a / b)
  | Fin _, PInf | Fin _, NInf => Fin 0
  | PInf, Fin b => if Rlt_dec b 0 then NInf else PInf
  | NInf, Fin b => if Rlt_dec b 0 then PInf else NInf
  | PInf, PInf | PInf, NInf | NInf, PInf | NInf, NInf => NaN
  end.

(** The range of binary64: an exact result of at most [underflow_bound],
    half the smallest positive value, rounds to zero; one of at least
    [overflow_bound] rounds to an infinity. *)
Definition underflow_bound : R := / 2 ^ 1075.
Definition overflow_bound : R := 2 ^ 1024.

(** An exact result brought into the range of binary64. *)
Definition in_range (r : R) : fval :=
  if Rle_dec (Rabs r) underflow_bound then Fin 0
  else if Rle_dec overflow_bound r then PInf
  else if Rle_dec r (- overflow_bound) then NInf
  else Fin r.

(** The result of an operation, brought into the range of binary64 when it
    is finite. *)
Definition frange (x : fval) : fval :=
  match x with
  | Fin r => in_range r
  | PInf | NInf | NaN => x
  end.

(** [x ** 2], with underflow to zero and overflow to infinity. *)
Definition fpow2 (x : fval) : fval :=
  match x with
  | Fin r => in_range (r * r)
  | PInf | NInf => PInf
  | NaN => NaN
  end.

(** [x ** 0.5], which numpy computes as a square root. *)
Definition fsqrt (x : fval) : fval :=
  match x with
  | Fin r => if Rlt_dec r 0 then NaN else Fin (sqrt r)
  | PInf => PInf
  | NInf | NaN => NaN
  end.

(** [np.exp], with underflow to zero and overflow to infinity. *)
Definition fexp (x : fval) : fval :=
  match x with
  | Fin r => in_range (exp r)
  | PInf => PInf
  | NInf => Fin 0
  | NaN => NaN
  end.

(** [np.log]. *)
Definition flog (x : fval) : fval :=
  match x with
  | Fin r =>
      match Rsign r with Pos => Fin (ln r) | Zero => NInf | Neg => NaN end
  | PInf => PInf
  | NInf | NaN => NaN
  end.

(** [x > 0]; false on NaN. *)
Definition fgt0 (x : fval) : bool :=
  match x with
  | Fin r => if Rlt_dec 0 r then true else false
  | PInf => true
  | NInf | NaN => false
  end.

(** [a.sum()]. *)
Definition fsum (l : list fval) : fval := fold_right fadd (Fin 0) l.

(** The finite values of a list, when all of them are finite. *)
Fixpoint finite_values (l : list fval) : option (list R) :=
  match l with
  | [] => Some []
  | Fin r :: l' =>
      match finite_values l' with
      | Some rs => Some (r :: rs)
      | None => None
      end
  | _ :: _ => None
  end.

Definition rsum (l : list R) : R := fold_right Rplus 0 l.

(** ** Outcomes and the state of the outside world *)

(** The exceptions the pipeline can end with.  The first two are the
    [RuntimeError]s of source lines 87 and 89. *)
Inductive exn : Type :=
| RuntimeError_non_finite
| RuntimeError_length
| FileNotFoundError
| ValueError_shapes
| LinAlg_non_finite.

(** The exceptions raised by the validation of the band descriptors. *)
Definition is_validation_error (e : exn) : bool :=
  match e with
  | RuntimeError_non_finite | RuntimeError_length => true
  | _ => false
  end.

Inductive result (A : Type) : Type :=
| Returned (a : A)
| Raised (e : exn).
Arguments Returned {A} a.
Arguments Raised {A} e.

(** [order]: the command line admits 1 and 3 only. *)
Inductive spline_order : Type := Linear | Cubic.

(** The scene parameters, passed as [**params]. *)
Record scene_params : Type := {
  zenith : R;
  sensor : R;
  ground : R;
  water : R;
  order : spline_order
}.

(** [SCALING], source line 83. *)
Definition SCALING : R := 100000.

(** [concentrations], source line 94. *)
Definition concentrations : list R :=
  [0; 500; 1000; 2000; 4000; 8000; 16000; 32000].

(** The design matrix of source line 109,
    [np.stack((np.ones_like(concentrations), concentrations)).T], as the
    list of its rows. *)
Definition design_matrix (cs : list R) : list (R * R) :=
  map (fun c => (1, c)) cs.

(** ** Least squares *)

(** The sums of the normal equations of a design matrix with two columns. *)
Definition gram11 (A : list (R * R)) : R := rsum (map (fun p => fst p * fst p) A).
Definition gram12 (A : list (R * R)) : R := rsum (map (fun p => fst p * snd p) A).
Definition gram22 (A : list (R * R)) : R := rsum (map (fun p => snd p * snd p) A).
Definition moment1 (A : list (R * R)) (y : list R) : R :=
  rsum (map (fun q => fst (fst q) * snd q) (combine A y)).
Definition moment2 (A : list (R * R)) (y : list R) : R :=
  rsum (map (fun q => snd (fst q) * snd q) (combine A y)).
Definition gram_det (A : list (R * R)) : R :=
  gram11 A * gram22 A - gram12 A * gram12 A.

(** [np.linalg.lstsq(A, y, rcond=None)] for one right-hand side and a
    design matrix [A] of two columns and full column rank: the solution of
    the normal equations.  (For a rank-deficient [A], where [gram_det A] is
    0, numpy returns the solution of least norm; the pipeline calls lstsq
    on [design_matrix concentrations] only, whose determinant is not 0.) *)
Definition lstsq2 (A : list (R * R)) (y : list R) : R * R :=
  ((gram22 A * moment1 A y - gram12 A * moment2 A y) / gram_det A,
   (gram11 A * moment2 A y - gram12 A * moment1 A y) / gram_det A).


(** lstsq with several right-hand sides, the columns [B]; each column is
    solved on its own.  What LAPACK does on non-finite data is not
    specified: the model stops there with [None]. *)
Fixpoint np_linalg_lstsq (A : list (R * R)) (B : list (list fval))
  : option (list (R * R)) :=
  match B with
  | [] => Some []
  | y :: B' =>
      match finite_values y, np_linalg_lstsq A B' with
      | Some ys, Some sol => Some (lstsq2 A ys :: sol)
      | _, _ => None
      end
  end.

(** ** Band Response & Resampler, Slope Regressor: the steps on one band

    Matrices indexed by band are held as the list of their columns, one
    per band: [response[:, j]], [resampled[:, j]], [lograd[:, j]]. *)

(** Source line 97. *)
Definition gaussian_sigma (fwhm : fval) : fval :=
  fdiv fwhm (Fin (2 * sqrt (2 * ln 2))).

(** Source lines 100-103 at one (native wavelength, band) pair, with the
    range of binary64: the squares, the products with the variance, the
    exponential and the quotient underflow to zero and overflow to
    infinity. *)
Definition response_entry (w : R) (center sigma : fval) : fval :=
  let var := fpow2 sigma in
  let denom := fsqrt (frange (fmul (Fin (2 * PI)) var)) in
  let numer :=
    fexp (fdiv (fneg (fpow2 (fsub (Fin w) center)))
               (frange (fmul (Fin 2) var))) in
  frange (fdiv numer denom).

Definition response_column (wave : list R) (center sigma : fval) : list fval :=
  map (fun w => response_entry w center sigma) wave.

(** Source line 105 on one column:
    [np.divide(response, s, where=s > 0, out=response)]. *)
Definition normalize_column (col : list fval) : list fval :=
  let s := fsum col in
  if fgt0 s then map (fun x => fdiv x s) col else col.

(** The Response Matrix: its columns, one per band. *)
Definition response_matrix (wave : list R) (centers fwhm : list fval)
  : list (list fval) :=
  map (fun cf => normalize_column
                   (response_column wave (fst cf) (gaussian_sigma (snd cf))))
      (combine centers fwhm).

(** One entry of [rads.dot(response)]. *)
Definition fdot (row : list R) (col : list fval) : fval :=
  fsum (map (fun rm => fmul (Fin (fst rm)) (snd rm)) (combine row col)).

(** Source line 107, [rads.dot(response)], as the list of the columns of
    the product. *)
Definition resample (rads : list (list R)) (response : list (list fval))
  : list (list fval) :=
  map (fun col => map (fun row => fdot row col) rads) response.

(** Source line 108 on one value:
    [np.log(x, out=np.zeros_like(x), where=x > 0)]. *)
Definition np_log_where (x : fval) : fval :=
  if fgt0 x then flog x else Fin 0.

(** [c * rads]. *)
Definition scale_library (c : R) (rads : list (list R)) : list (list R) :=
  map (map (Rmult c)) rads.

(** [c * resampled]. *)
Definition scale_resampled (c : R) (m : list (list fval)) : list (list fval) :=
  map (map (fmul (Fin c))) m.

(** Source lines 109-110 on the resampled radiances of one band whose
    logarithms are the finite values [y]. *)
Definition band_coefficient (y : list R) : R :=
  snd (lstsq2 (design_matrix concentrations) y) * SCALING.

(** ** The pipeline *)

Section Pipeline.

(** One wavelength slice of the lookup grid (a 5-dimensional array), and
    [scipy.ndimage.map_coordinates(im, coordinates, order, mode='nearest')]
    at one coordinate column; the grid holds finite radiances. *)
Variable slice : Type.
Variable map_coordinates : slice -> list R -> spline_order -> R.

(** The file [dataset_noms.npz]; [grid_5deg_data] is held as the list of
    its wavelength slices, [np.moveaxis(grid_data, 5, 0)]. *)
Record dataset : Type := {
  grid_5deg_data : list slice;
  wave : list R
}.

(** The outside world: the dataset file, when there is one, and the number
    of times it has been opened. *)
Record world : Type := {
  dataset_noms : option dataset;
  loads : nat
}.

(** Computations that read the world and may raise. *)
Definition M (A : Type) : Type := world -> result A * world.

Definition ret {A} (a : A) : M A := fun w => (Returned a, w).
Definition raise {A} (e : exn) : M A := fun w => (Raised e, w).
Definition bind {A B} (c : M A) (k : A -> M B) : M B :=
  fun w =>
    match c w with
    | (Returned a, w') => k a w'
    | (Raised e, w') => (Raised e, w')
    end.

Notation "x <- c ;; k" := (bind c (fun x => k))
  (at level 61, c at next level, right associativity).

(** [spline_5deg_lookup], source lines 58-61. *)
Definition spline_5deg_lookup (grid_data : list slice)
    (zenith sensor ground water methane : R) (order : spline_order) : list R :=
  let coords := get_5deg_lookup_index zenith sensor ground water methane in
  map (fun im => map_coordinates im coords order) grid_data.

(** [load_dataset], source lines 63-66. *)
Definition load_dataset : M dataset :=
  fun w =>
    let w' := {| dataset_noms := dataset_noms w; loads := S (loads w) |} in
    match dataset_noms w with
    | Some d => (Returned d, w')
    | None => (Raised FileNotFoundError, w')
    end.

(** [generate_library], source lines 68-73. *)
Definition generate_library (methane_vals : list R) (p : scene_params)
  : M (list (list R) * list R) :=
  d <- load_dataset ;;
  ret (map (fun ppmm =>
              spline_5deg_lookup (grid_5deg_data d) (zenith p) (sensor p)
                (ground p) (water p) ppmm (order p))
           methane_vals,
       wave d).

(** The rows of the output, source line 111: the 1-based band index, the
    band center and the coefficient. *)
Definition stack_target (centers : list fval) (spectrum : list R)
  : list (nat * fval * R) :=
  combine (combine (seq 1 (length spectrum)) centers) spectrum.

(** [generate_template_from_bands], source lines 75-112. *)
Definition generate_template_from_bands (centers fwhm : list fval)
    (params : scene_params) : M (list (nat * fval * R)) :=
  if existsb (fun x => negb (np_isfinite x)) centers
     || existsb (fun x => negb (np_isfinite x)) fwhm
  then raise RuntimeError_non_finite
  else if negb (length centers =? length fwhm)%nat
  then raise RuntimeError_length
  else
    lib <- generate_library concentrations params ;;
    let rads := fst lib in
    let wave := snd lib in
    let response := response_matrix wave centers fwhm in
    if negb (length (hd [] rads) =? length wave)%nat
    then raise ValueError_shapes
    else
      let resampled := resample rads response in
      let lograd := map (map np_log_where) resampled in
      match np_linalg_lstsq (design_matrix concentrations) lograd with
      | None => raise LinAlg_non_finite
      | Some slope =>
          let spectrum := map (fun s => snd s * SCALING) slope in
          ret (stack_target centers spectrum)
      end.

(** The world after the dataset file has been opened once more. *)
Definition opened (w : world) : world :=
  {| dataset_noms := dataset_noms w; loads := S (loads w) |}.

(** The Radiance Library of a dataset. *)
Definition library_of (d : dataset) (p : scene_params) : list (list R) :=
  map (fun ppmm =>
         spline_5deg_lookup (grid_5deg_data d)
           (zenith p) (sensor p) (ground p) (water p) ppmm (order p))
      concentrations.

(** The logarithms handed to the regression, one column per band. *)
Definition lograd_of (d : dataset) (centers fwhm : list fval)
    (p : scene_params) : list (list fval) :=
  map (map np_log_where)
      (resample (library_of d p) (response_matrix (wave d) centers fwhm)).

End Pipeline.

Arguments grid_5deg_data {slice} d.
Arguments wave {slice} d.
Arguments dataset_noms {slice} w.
Arguments loads {slice} w.

(** ** Vocabulary of the statements *)

(** A finite value. *)
Definition finite (x : fval) : Prop := np_isfinite x = true.

(** A value that is finite or NaN: what the program computes from finite
    band descriptors and a finite grid. *)
Definition fin_or_nan (x : fval) : Prop :=
  match x with Fin _ | NaN => True | PInf | NInf => False end.

(** The standard deviation of a band of finite FWHM [f], source line 97. *)
Definition sigma_of (f : R) : R := f / (2 * sqrt (2 * ln 2)).

(** The variance of a band of FWHM [f] is in range: its square
    [sigma ** 2] does not underflow, and [2 * pi * sigma ** 2] does not
    overflow. *)
Definition variance_in_range (f : R) : Prop :=
  underflow_bound < sigma_of f * sigma_of f /\
  2 * PI * (sigma_of f * sigma_of f) < overflow_bound.

(** The weights of a band sum to more than zero: the condition under
    which source line 105 normalizes the column of the band. *)
Definition normalized_band (wave : list R) (c f : R) : Prop :=
  fgt0 (fsum (response_column wave (Fin c) (gaussian_sigma (Fin f)))) = true.

(** A finite value that is not negative, or NaN: what a weight of a band
    of finite center and FWHM can be. *)
Definition nonneg_or_nan (x : fval) : Prop :=
  match x with
  | Fin r => 0 <= r
  | NaN => True
  | PInf | NInf => False
  end.

(** The band descriptors fail the validation: a center or an FWHM is not
    finite, or the two sequences differ in length. *)
Definition invalid_bands (centers fwhm : list fval) : Prop :=
  Exists (fun x => ~ finite x) centers \/
  Exists (fun x => ~ finite x) fwhm \/
  length centers <> length fwhm.


(** ** Concrete inputs of the examples *)

Definition example_params : scene_params :=
  {| zenith := 0; sensor := 200; ground := 0; water := 0; order := Linear |}.

(** A dataset of two wavelengths, for an interpolation that does not look
    at the slices. *)
Definition example_dataset : dataset unit :=
  {| grid_5deg_data := [tt; tt]; wave := [1; 2] |}.

Definition example_world : world unit :=
  {| dataset_noms := Some example_dataset; loads := 0 |}.

(** A world without the dataset file. *)
Definition empty_world : world unit :=
  {| dataset_noms := None; loads := 0 |}.

(** An interpolation that gives the radiance [v] everywhere. *)
Definition constant_radiance (v : R) : unit -> list R -> spline_order -> R :=
  fun _ _ _ => v.

(** The methane concentration of a methane index: the inverse of
    [get_5deg_methane_index] on the concentrations that are not negative. *)
Definition methane_of_index (i : R) : R :=
  if Rlt_dec i 1 then 1000 * i else 500 * exp (i * ln 2).

(** An interpolation whose radiance is [exp (a + b * concentration)] at
    every wavelength; the methane index is the fifth coordinate. *)
Definition synthetic_radiance (a b : R) : unit -> list R -> spline_order -> R :=
  fun _ coords _ => exp (a + b * methane_of_index (nth 4 coords 0)).

(** ** Tactics *)

(** Decides every comparison a mapper makes. *)
Ltac branches :=
  repeat match goal with
         | |- context [Rlt_dec ?a ?b] => destruct (Rlt_dec a b)
         | |- context [Rle_dec ?a ?b] => destruct (Rle_dec a b)
         end.

(** Decides the sign tests and comparisons of the [fval] operations. *)
Ltac fcases :=
  repeat match goal with
         | |- context [total_order_T ?a ?b] =>
             destruct (total_order_T a b) as [[?|?]|?]
         | |- context [Req_dec_T ?a ?b] => destruct (Req_dec_T a b)
         | |- context [Rlt_dec ?a ?b] => destruct (Rlt_dec a b)
         end.

Ltac fsolve :=
  cbn; unfold inf_times, Rsign; fcases; cbn;
  try reflexivity; try discriminate; try (exfalso; nra); try (f_equal; nra).

(** * Part II: the properties *)

(** ** Axis Index Mapper *)

Lemma ln2_pos : 0 < ln 2.
Proof. rewrite <- ln_1. apply ln_increasing; lra. Qed.

Lemma log2_pow2 (n : nat) : log2 (2 ^ n) = INR n.
Proof.
  unfold log2. rewrite ln_pow by lra.
  field. pose proof ln2_pos. lra.
Qed.

Lemma log2_ratio (v : R) (n : nat) : v / 500 = 2 ^ n -> log2 (v / 500) = INR n.
Proof. intros ->. apply log2_pow2. Qed.

(** C2. For every real sensor height [v] the mapper returns 0 below 1,
    [v - 1] on [1,2), [v/2] on [2,4), [v/6 + 4/3] on [4,10), [v/10 + 2] on
    [10,20), [v/180 + 35/9] on [20,200) and 5 from 200 on; at [v = 5] the
    result is 13/6. *)
Theorem sensor_height_index_segments :
  forall v : R,
    (v < 1 -> get_5deg_sensor_height_index v = 0) /\
    (1 <= v < 2 -> get_5deg_sensor_height_index v = v - 1) /\
    (2 <= v < 4 -> get_5deg_sensor_height_index v = v / 2) /\
    (4 <= v < 10 -> get_5deg_sensor_height_index v = v / 6 + 4 / 3) /\
    (10 <= v < 20 -> get_5deg_sensor_height_index v = v / 10 + 2) /\
    (20 <= v < 200 -> get_5deg_sensor_height_index v = v / 180 + 35 / 9) /\
    (200 <= v -> get_5deg_sensor_height_index v = 5) /\
    get_5deg_sensor_height_index 5 = 13 / 6.
Proof.
  intro v. unfold get_5deg_sensor_height_index.
  repeat split; intros; branches; lra.
Qed.

Lemma sensor_height_index_segments_witness :
  1 <= 3 / 2 < 2 /\ get_5deg_sensor_height_index (3 / 2) = 3 / 2 - 1.
Proof.
  split; [lra |].
  apply (proj1 (proj2 (sensor_height_index_segments (3 / 2)))). lra.
Defined.

(** C3. For every real methane value [v] the mapper returns 0 when
    [v <= 0], [v/1000] when [0 < v < 1000] and [log2 (v/500)] when
    [v >= 1000]; at [v = 1000] both formulas give exactly 1. *)
Theorem methane_index_branches :
  forall v : R,
    (v <= 0 -> get_5deg_methane_index v = 0) /\
    (0 < v < 1000 -> get_5deg_methane_index v = v / 1000) /\
    (1000 <= v -> get_5deg_methane_index v = log2 (v / 500)) /\
    methane_linear_branch 1000 = 1 /\
    methane_log_branch 1000 = 1 /\
    get_5deg_methane_index 1000 = 1.
Proof.
  assert (Hlog : log2 (1000 / 500) = 1).
  { apply (log2_ratio 1000 1). lra. }
  intro v. unfold get_5deg_methane_index, methane_linear_branch,
    methane_log_branch.
  repeat split; intros; branches; try lra; exact Hlog.
Qed.

Lemma methane_index_branches_witness :
  0 < 250 < 1000 /\ get_5deg_methane_index 250 = 250 / 1000.
Proof.
  split; [lra |].
  apply (proj1 (proj2 (methane_index_branches 250))). lra.
Defined.

(** C9. The sensor-height mapper is monotone non-decreasing over the reals,
    its value lies in [0, 5], and it has no jump: between two heights it
    rises by no more than the heights differ, and at each of the values 1,
    2, 4, 10, 20 and 200 the mapper, which takes there the formula of the
    segment on the right, gives the value of the formula of the segment on
    the left. *)
Theorem sensor_height_index_monotone_bounded :
  (forall u v : R,
      u <= v ->
      get_5deg_sensor_height_index u <= get_5deg_sensor_height_index v /\
      get_5deg_sensor_height_index v - get_5deg_sensor_height_index u <= v - u) /\
  (forall v : R, 0 <= get_5deg_sensor_height_index v <= 5) /\
  get_5deg_sensor_height_index 1 = sensor_segment 0 1 /\
  get_5deg_sensor_height_index 2 = sensor_segment 1 2 /\
  get_5deg_sensor_height_index 4 = sensor_segment 2 4 /\
  get_5deg_sensor_height_index 10 = sensor_segment 3 10 /\
  get_5deg_sensor_height_index 20 = sensor_segment 4 20 /\
  get_5deg_sensor_height_index 200 = sensor_segment 5 200.
Proof.
  unfold get_5deg_sensor_height_index, sensor_segment.
  repeat split; intros; branches; lra.
Qed.

Lemma sensor_height_index_monotone_bounded_witness :
  3 <= 15 /\
  get_5deg_sensor_height_index 3 <= get_5deg_sensor_height_index 15.
Proof.
  split; [lra |].
  apply (proj1 sensor_height_index_monotone_bounded 3 15). lra.
Defined.

(** C10. On the concentration ladder 0, 500, 1000, 2000, 4000, 8000, 16000,
    32000 the methane mapper gives the indices 0, 1/2, 1, 2, 3, 4, 5, 6:
    every entry from 1000 on falls on an integer index, consecutive along
    the ladder. *)
Theorem methane_index_on_ladder :
  map get_5deg_methane_index concentrations = [0; 1 / 2; 1; 2; 3; 4; 5; 6].
Proof.
  unfold concentrations, get_5deg_methane_index. cbn [map].
  repeat f_equal; branches; try lra;
    first [ rewrite (log2_ratio _ 1) by lra
          | rewrite (log2_ratio _ 2) by lra
          | rewrite (log2_ratio _ 3) by lra
          | rewrite (log2_ratio _ 4) by lra
          | rewrite (log2_ratio _ 5) by lra
          | rewrite (log2_ratio _ 6) by lra ];
    simpl; lra.
Qed.

(** ** Arithmetic of [fval] *)

Lemma fadd_fin_or_nan x y : fin_or_nan x -> fin_or_nan y -> fin_or_nan (fadd x y).
Proof. destruct x, y; cbn; tauto. Qed.

Lemma fmul_fin_or_nan r y : fin_or_nan y -> fin_or_nan (fmul (Fin r) y).
Proof. destruct y; cbn; tauto. Qed.

Lemma fsum_fin_or_nan l : Forall fin_or_nan l -> fin_or_nan (fsum l).
Proof.
  induction 1 as [|x l Hx _ IH]; cbn; [exact I |].
  apply fadd_fin_or_nan; assumption.
Qed.

Lemma fdot_fin_or_nan row col : Forall fin_or_nan col -> fin_or_nan (fdot row col).
Proof.
  intro H. unfold fdot. apply fsum_fin_or_nan.
  revert row. induction H as [|m col Hm _ IH]; intros [|r row]; cbn;
    constructor.
  - apply fmul_fin_or_nan, Hm.
  - apply IH.
Qed.

Lemma np_log_where_finite x :
  fin_or_nan x -> exists r, np_log_where x = Fin r.
Proof.
  destruct x as [r| | |]; cbn; try tauto; intros _; [| eauto].
  unfold np_log_where, flog, Rsign. cbn.
  destruct (Rlt_dec 0 r); [| eauto].
  destruct (total_order_T r 0) as [[?|?]|?]; try (exfalso; lra). eauto.
Qed.

Lemma finite_values_map_Fin rs : finite_values (map Fin rs) = Some rs.
Proof. induction rs as [|r rs IH]; cbn; [| rewrite IH]; reflexivity. Qed.

Lemma finite_values_all l :
  Forall (fun x => exists r, x = Fin r) l -> exists rs, finite_values l = Some rs.
Proof.
  induction 1 as [|x l [r ->] _ [rs IH]]; cbn; [eauto |].
  rewrite IH. eauto.
Qed.

Lemma finite_values_Some l rs : finite_values l = Some rs -> l = map Fin rs.
Proof.
  revert rs. induction l as [|x l IH]; cbn; intros rs H.
  - injection H as <-. reflexivity.
  - destruct x; try discriminate.
    destruct (finite_values l) as [rs'|]; try discriminate.
    injection H as <-. cbn. f_equal. auto.
Qed.

(** Multiplication by a finite scalar is associative and distributes over
    the sum, on the special values too. *)
Lemma fmul_Fin_assoc c r m :
  fmul (Fin (c * r)) m = fmul (Fin c) (fmul (Fin r) m).
Proof. destruct m; fsolve. Qed.

Lemma fmul_Fin_fadd c a b :
  fmul (Fin c) (fadd a b) = fadd (fmul (Fin c) a) (fmul (Fin c) b).
Proof. destruct a, b; fsolve. Qed.

Lemma fmul_Fin_fsum c l :
  fmul (Fin c) (fsum l) = fsum (map (fmul (Fin c)) l).
Proof.
  unfold fsum. induction l as [|x l IH]; cbn [map fold_right].
  - cbn. f_equal. ring.
  - rewrite fmul_Fin_fadd, IH. reflexivity.
Qed.

Lemma fdot_scale c row col :
  fdot (map (Rmult c) row) col = fmul (Fin c) (fdot row col).
Proof.
  unfold fdot. rewrite fmul_Fin_fsum. f_equal.
  revert col.
  induction row as [|r row IH]; intros [|m col]; cbn [map combine fst snd];
    try reflexivity.
  rewrite fmul_Fin_assoc, IH. reflexivity.
Qed.

(** ** Band Response & Resampler *)

(** C7. Resampling is linear in the Radiance Library: for every library
    [rads], response matrix [response] and scalar [c], resampling [c * rads]
    gives [c] times the resampling of [rads]. *)
Theorem resample_linear :
  forall (c : R) (rads : list (list R)) (response : list (list fval)),
    resample (scale_library c rads) response
    = scale_resampled c (resample rads response).
Proof.
  intros c rads response. unfold resample, scale_library, scale_resampled.
  rewrite map_map. apply map_ext. intro col.
  rewrite !map_map. apply map_ext. intro row.
  apply fdot_scale.
Qed.

Lemma np_log_where_pos r : 0 < r -> np_log_where (Fin r) = Fin (ln r).
Proof.
  intro H. unfold np_log_where, flog, Rsign. cbn.
  destruct (Rlt_dec 0 r); [| exfalso; lra].
  destruct (total_order_T r 0) as [[?|?]|?]; try (exfalso; lra). reflexivity.
Qed.

Lemma fwhm_factor_pos : 0 < 2 * sqrt (2 * ln 2).
Proof.
  assert (0 < sqrt (2 * ln 2)); [| lra].
  apply sqrt_lt_R0. pose proof ln2_pos. lra.
Qed.

Lemma gaussian_sigma_Fin f : gaussian_sigma (Fin f) = Fin (sigma_of f).
Proof.
  unfold gaussian_sigma, sigma_of, fdiv.
  destruct (Req_dec_T (2 * sqrt (2 * ln 2)) 0) as [E|_]; [| reflexivity].
  pose proof fwhm_factor_pos. lra.
Qed.

Lemma sigma_of_neq_0 f : f <> 0 -> sigma_of f <> 0.
Proof.
  intros Hf E. unfold sigma_of in E. pose proof fwhm_factor_pos as HK.
  apply Hf. apply (Rmult_eq_reg_r (/ (2 * sqrt (2 * ln 2)))).
  - unfold Rdiv in E. rewrite E. ring.
  - apply Rinv_neq_0_compat. lra.
Qed.

Lemma Rsign_zero : Rsign 0 = Zero.
Proof.
  unfold Rsign. destruct (total_order_T 0 0) as [[?|?]|?];
    try (exfalso; lra). reflexivity.
Qed.

Lemma fdiv_zero_zero : fdiv (Fin 0) (Fin 0) = NaN.
Proof.
  unfold fdiv. destruct (Req_dec_T 0 0); [| exfalso; lra].
  rewrite Rsign_zero. reflexivity.
Qed.

Lemma fsum_map_Fin rs : fsum (map Fin rs) = Fin (rsum rs).
Proof.
  unfold fsum, rsum. induction rs as [|r rs IH]; cbn [map fold_right];
    [reflexivity |].
  rewrite IH. reflexivity.
Qed.

Lemma fsum_Fin_inv l s :
  fsum l = Fin s -> exists rs, l = map Fin rs /\ rsum rs = s.
Proof.
  unfold fsum, rsum. revert s. induction l as [|x l IH]; cbn [fold_right]; intros s H.
  - exists []. split; [reflexivity |]. cbn. congruence.
  - destruct x as [a| | |], (fold_right fadd (Fin 0) l) as [b| | |] eqn:E;
      cbn in H; try discriminate.
    destruct (IH b eq_refl) as [rs [-> Hrs]].
    exists (a :: rs). split; [reflexivity |]. cbn. injection H as <-.
    unfold rsum in Hrs. rewrite Hrs. reflexivity.
Qed.

Lemma rsum_map_div rs s : rsum (map (fun x => x / s) rs) = rsum rs / s.
Proof.
  unfold rsum. induction rs as [|r rs IH]; cbn; [lra |].
  rewrite IH. lra.
Qed.

Lemma normalize_column_Fin rs :
  0 < rsum rs ->
  normalize_column (map Fin rs) = map Fin (map (fun x => x / rsum rs) rs).
Proof.
  intro Hs. unfold normalize_column. rewrite fsum_map_Fin. cbn.
  destruct (Rlt_dec 0 (rsum rs)); [| exfalso; lra].
  rewrite !map_map. apply map_ext. intro x. cbn.
  destruct (Req_dec_T (rsum rs) 0); [exfalso; lra | reflexivity].
Qed.

Lemma normalize_column_sum_1 col s :
  fsum col = Fin s -> 0 < s -> fsum (normalize_column col) = Fin 1.
Proof.
  intros H Hs. destruct (fsum_Fin_inv col s H) as [rs [-> Hrs]]. subst s.
  rewrite normalize_column_Fin by assumption.
  rewrite fsum_map_Fin, rsum_map_div. f_equal. field. lra.
Qed.

Lemma rsum_pos rs : rs <> [] -> Forall (fun r => 0 < r) rs -> 0 < rsum rs.
Proof.
  intros Hne H. unfold rsum. destruct H as [|r rs Hr Hrs]; [congruence |].
  clear Hne. cbn. revert r Hr. induction Hrs as [|r' rs Hr' _ IH]; intros r Hr; cbn.
  - lra.
  - specialize (IH r' Hr'). lra.
Qed.

Lemma fsum_NaN_column (A : Type) (l : list A) :
  l <> [] -> fsum (map (fun _ => NaN) l) = NaN.
Proof. destruct l; [congruence | reflexivity]. Qed.

Lemma normalize_column_nil : normalize_column [] = [].
Proof.
  unfold normalize_column. cbn.
  destruct (Rlt_dec 0 0); [exfalso; lra | reflexivity].
Qed.

(** ** The pipeline *)

Lemma existsb_non_finite_false l :
  existsb (fun x => negb (np_isfinite x)) l = false <-> Forall finite l.
Proof.
  unfold finite. induction l as [|x l IH]; cbn.
  - split; [constructor | reflexivity].
  - rewrite orb_false_iff, negb_false_iff, IH. split.
    + intros [? ?]. constructor; assumption.
    + intro H. inversion H; subst. split; assumption.
Qed.

Lemma existsb_non_finite_true l :
  existsb (fun x => negb (np_isfinite x)) l = true <-> Exists (fun x => ~ finite x) l.
Proof.
  unfold finite. rewrite existsb_exists, Exists_exists.
  split; intros [x [Hin Hx]]; exists x; split; try assumption.
  - rewrite negb_true_iff in Hx. congruence.
  - destruct (np_isfinite x); [exfalso; auto | reflexivity].
Qed.

Lemma finite_inv x : finite x -> exists r, x = Fin r.
Proof. destruct x; cbn; try discriminate. eauto. Qed.

(** ** The range of binary64 *)

Lemma pow2_ge_1 (n : nat) : 1 <= 2 ^ n.
Proof. apply pow_R1_Rle. lra. Qed.

Lemma pow2_pos (n : nat) : 0 < 2 ^ n.
Proof. pose proof (pow2_ge_1 n). lra. Qed.

Lemma underflow_bound_pos : 0 < underflow_bound.
Proof. unfold underflow_bound. apply Rinv_0_lt_compat, pow2_pos. Qed.

Lemma underflow_bound_small : underflow_bound <= / 16.
Proof.
  unfold underflow_bound. apply Rinv_le_contravar; [lra |].
  replace 16 with (2 ^ 4) by (simpl; lra).
  apply Rle_pow; [lra | lia].
Qed.

Lemma overflow_bound_big : 16 <= overflow_bound.
Proof.
  unfold overflow_bound. replace 16 with (2 ^ 4) by (simpl; lra).
  apply Rle_pow; [lra | lia].
Qed.

Lemma in_range_cases (r : R) :
  0 <= r ->
  (in_range r = Fin 0 /\ r <= underflow_bound) \/
  (in_range r = PInf /\ overflow_bound <= r) \/
  (in_range r = Fin r /\ underflow_bound < r < overflow_bound).
Proof.
  intro Hr. unfold in_range. rewrite (Rabs_pos_eq r Hr).
  pose proof overflow_bound_big as Hb.
  destruct (Rle_dec r underflow_bound); [left; split; [reflexivity | assumption] |].
  destruct (Rle_dec overflow_bound r); [right; left; split; [reflexivity | assumption] |].
  destruct (Rle_dec r (- overflow_bound)); [exfalso; lra |].
  right; right. split; [reflexivity | lra].
Qed.

Lemma in_range_normal (r : R) :
  underflow_bound < r < overflow_bound -> in_range r = Fin r.
Proof.
  intro H. pose proof underflow_bound_pos as Hu.
  destruct (in_range_cases r) as [[_ H'] | [[_ H'] | [E _]]];
    [lra | exfalso; lra | exfalso; lra | exact E].
Qed.

Lemma in_range_underflow (r : R) :
  0 <= r -> r <= underflow_bound -> in_range r = Fin 0.
Proof.
  intros Hr H. unfold in_range. rewrite (Rabs_pos_eq r Hr).
  destruct (Rle_dec r underflow_bound); [reflexivity | contradiction].
Qed.

Lemma in_range_overflow (r : R) : overflow_bound <= r -> in_range r = PInf.
Proof.
  intro H. pose proof overflow_bound_big as Hb.
  pose proof underflow_bound_small as Hs.
  destruct (in_range_cases r) as [[_ H'] | [[E _] | [_ H']]];
    [lra | exfalso; lra | exact E | exfalso; lra].
Qed.

Lemma in_range_0 : in_range 0 = Fin 0.
Proof. apply in_range_underflow; [lra | left; apply underflow_bound_pos]. Qed.

Lemma in_range_1 : in_range 1 = Fin 1.
Proof.
  apply in_range_normal.
  pose proof underflow_bound_small. pose proof overflow_bound_big. lra.
Qed.

(** A result that is not negative and below the overflow bound stays
    finite, and is not increased. *)
Lemma in_range_finite (r : R) :
  0 <= r < overflow_bound -> exists g, in_range r = Fin g /\ 0 <= g <= r.
Proof.
  intro H.
  destruct (in_range_cases r) as [[E _] | [[_ H'] | [E _]]]; [lra | | |].
  - exists 0. split; [exact E | lra].
  - exfalso; lra.
  - exists r. split; [exact E | lra].
Qed.


(** The inverse of the square root of a value in range is in range. *)
Lemma inv_sqrt_in_range (x : R) :
  underflow_bound < x < overflow_bound ->
  underflow_bound < / sqrt x < overflow_bound.
Proof.
  intros [Hu Ho]. pose proof underflow_bound_pos as Hp.
  assert (Hx : 0 < sqrt x) by (apply sqrt_lt_R0; lra).
  split.
  - assert (Hs : sqrt x < 2 ^ 512).
    { rewrite <- (sqrt_square (2 ^ 512)) by (left; apply pow2_pos).
      apply sqrt_lt_1_alt. split; [lra |].
      rewrite <- pow_add. exact Ho. }
    apply Rlt_le_trans with (/ 2 ^ 512).
    + unfold underflow_bound. apply Rinv_lt_contravar.
      * apply Rmult_lt_0_compat; apply pow2_pos.
      * apply Rlt_pow; [lra | lia].
    + left. apply Rinv_lt_contravar; [| exact Hs].
      apply Rmult_lt_0_compat; [exact Hx | apply pow2_pos].
  - assert (Hs : / 2 ^ 538 < sqrt x).
    { rewrite <- (sqrt_square (/ 2 ^ 538))
        by (left; apply Rinv_0_lt_compat, pow2_pos).
      apply sqrt_lt_1_alt. split.
      - left. apply Rmult_lt_0_compat; apply Rinv_0_lt_compat, pow2_pos.
      - apply Rle_lt_trans with underflow_bound; [| exact Hu].
        unfold underflow_bound. rewrite <- Rinv_mult, <- pow_add.
        apply Rinv_le_contravar; [apply pow2_pos |].
        apply Rle_pow; [lra | lia]. }
    apply Rlt_le_trans with (2 ^ 538).
    + rewrite <- (Rinv_inv (2 ^ 538)).
      apply Rinv_lt_contravar; [| exact Hs].
      apply Rmult_lt_0_compat; [apply Rinv_0_lt_compat, pow2_pos | exact Hx].
    + unfold overflow_bound. apply Rle_pow; [lra | lia].
Qed.

(** ** The weights of a band of finite center and FWHM *)

Lemma exp_nonpos_unit (e : R) : e <= 0 -> 0 <= exp e <= 1.
Proof.
  intro H. split; [left; apply exp_pos |].
  destruct H as [H | ->]; [| rewrite exp_0; lra].
  left. rewrite <- exp_0. apply exp_increasing, H.
Qed.

Lemma fexp_nonpos (e : R) :
  e <= 0 -> exists n, fexp (Fin e) = Fin n /\ 0 <= n <= exp e.
Proof.
  intro H. cbn [fexp]. apply in_range_finite.
  pose proof (exp_nonpos_unit e H). pose proof overflow_bound_big. lra.
Qed.

Lemma fexp_0 (e : R) : e = 0 -> fexp (Fin e) = Fin 1.
Proof. intros ->. cbn [fexp]. rewrite exp_0. apply in_range_1. Qed.

Lemma sqr_nonneg (d : R) : 0 <= d * d.
Proof. pose proof (Rle_0_sqr d) as H. unfold Rsqr in H. exact H. Qed.

(** The numerator of source line 102 when [2 * var] is a positive finite
    value. *)
Lemma numerator_cases (d v : R) :
  0 < v ->
  exists n,
    fexp (fdiv (fneg (fpow2 (Fin d))) (Fin (2 * v))) = Fin n /\ 0 <= n <= 1.
Proof.
  intro Hv. cbn [fpow2].
  destruct (in_range_cases (d * d) (sqr_nonneg d)) as [[E _] | [[E _] | [E _]]];
    rewrite E; cbn [fneg]; unfold fdiv.
  - destruct (Req_dec_T (2 * v) 0); [exfalso; lra |].
    exists 1. split; [| lra]. apply fexp_0. unfold Rdiv. ring.
  - destruct (Rlt_dec (2 * v) 0); [exfalso; lra |].
    exists 0. split; [reflexivity | lra].
  - destruct (Req_dec_T (2 * v) 0); [exfalso; lra |].
    assert (He : - (d * d) / (2 * v) <= 0).
    { unfold Rdiv. pose proof (sqr_nonneg d) as Hd.
      assert (0 < / (2 * v)) by (apply Rinv_0_lt_compat; lra). nra. }
    destruct (fexp_nonpos _ He) as [g [Eg Hg]].
    exists g. split; [exact Eg |]. pose proof (exp_nonpos_unit _ He). lra.
Qed.

(** The numerator when [2 * var] has overflowed. *)
Lemma numerator_overflow (d : R) :
  fexp (fdiv (fneg (fpow2 (Fin d))) PInf) = Fin 1 \/
  fexp (fdiv (fneg (fpow2 (Fin d))) PInf) = NaN.
Proof.
  cbn [fpow2].
  destruct (in_range_cases (d * d) (sqr_nonneg d)) as [[E _] | [[E _] | [E _]]];
    rewrite E; cbn [fneg fdiv].
  - left. apply fexp_0. reflexivity.
  - right. reflexivity.
  - left. apply fexp_0. reflexivity.
Qed.

(** The numerator when the variance is zero. *)
Lemma numerator_zero_variance (d : R) :
  fexp (fdiv (fneg (fpow2 (Fin d))) (Fin 0)) = Fin 0 \/
  fexp (fdiv (fneg (fpow2 (Fin d))) (Fin 0)) = NaN.
Proof.
  cbn [fpow2]. pose proof underflow_bound_pos.
  destruct (in_range_cases (d * d) (sqr_nonneg d)) as [[E _] | [[E _] | [E Hn]]];
    rewrite E; cbn [fneg]; unfold fdiv.
  - destruct (Req_dec_T 0 0); [| exfalso; lra].
    replace (- 0) with 0 by ring. rewrite Rsign_zero. right; reflexivity.
  - destruct (Rlt_dec 0 0); [exfalso; lra |]. left; reflexivity.
  - destruct (Req_dec_T 0 0); [| exfalso; lra].
    unfold Rsign.
    destruct (total_order_T (- (d * d)) 0) as [[?|?]|?]; try (exfalso; lra).
    left; reflexivity.
Qed.

Lemma response_entry_unfold w c f :
  response_entry w (Fin c) (gaussian_sigma (Fin f))
  = frange
      (fdiv (fexp (fdiv (fneg (fpow2 (Fin (w + - c))))
                        (frange (fmul (Fin 2)
                                      (in_range (sigma_of f * sigma_of f))))))
            (fsqrt (frange (fmul (Fin (2 * PI))
                                 (in_range (sigma_of f * sigma_of f)))))).
Proof. rewrite gaussian_sigma_Fin. reflexivity. Qed.

Lemma PI_gt_1 : 1 < PI.
Proof. pose proof PI2_1. lra. Qed.

Lemma variance_in_range_pos f : variance_in_range f -> 0 < sigma_of f * sigma_of f.
Proof. intros [H _]. pose proof underflow_bound_pos. lra. Qed.

(** The products with a variance that is in range. *)
Lemma variance_products f :
  variance_in_range f ->
  in_range (sigma_of f * sigma_of f) = Fin (sigma_of f * sigma_of f) /\
  in_range (2 * (sigma_of f * sigma_of f)) = Fin (2 * (sigma_of f * sigma_of f)) /\
  in_range (2 * PI * (sigma_of f * sigma_of f))
  = Fin (2 * PI * (sigma_of f * sigma_of f)).
Proof.
  intros [Hu Ho]. pose proof PI_gt_1 as Hpi. pose proof underflow_bound_pos as Hp.
  repeat split; apply in_range_normal; nra.
Qed.

(** The denominator of source line 101 for a positive finite variance. *)
Lemma denominator_pos (v : R) : 0 < v -> 0 < sqrt (2 * PI * v).
Proof. intro Hv. apply sqrt_lt_R0. pose proof PI_RGT_0. nra. Qed.

Lemma quotient_bounds f n :
  variance_in_range f -> 0 <= n <= 1 ->
  0 <= n / sqrt (2 * PI * (sigma_of f * sigma_of f)) < overflow_bound.
Proof.
  intros Hr Hn. pose proof Hr as [Hu Ho]. pose proof PI_gt_1 as Hpi.
  pose proof underflow_bound_pos as Hp.
  destruct (inv_sqrt_in_range (2 * PI * (sigma_of f * sigma_of f))) as [H1 H2];
    [nra |].
  unfold Rdiv. split; nra.
Qed.

Lemma response_entry_variance_in_range w c f :
  variance_in_range f ->
  exists n,
    fexp (fdiv (fneg (fpow2 (Fin (w + - c))))
               (Fin (2 * (sigma_of f * sigma_of f)))) = Fin n /\
    0 <= n <= 1 /\
    response_entry w (Fin c) (gaussian_sigma (Fin f))
    = in_range (n / sqrt (2 * PI * (sigma_of f * sigma_of f))).
Proof.
  intro Hr. pose proof (variance_in_range_pos f Hr) as Hv.
  destruct (variance_products f Hr) as [E1 [E2 E3]].
  destruct (numerator_cases (w + - c) _ Hv) as [n [En Hn]].
  exists n. split; [exact En |]. split; [exact Hn |].
  rewrite response_entry_unfold, E1.
  cbn [fmul frange]. rewrite E2, E3, En. cbn [fsqrt].
  pose proof (denominator_pos _ Hv) as Hd.
  assert (Hpos : 0 < 2 * PI * (sigma_of f * sigma_of f)).
  { pose proof PI_RGT_0. nra. }
  destruct (Rlt_dec (2 * PI * (sigma_of f * sigma_of f)) 0); [exfalso; lra |].
  unfold fdiv.
  destruct (Req_dec_T (sqrt (2 * PI * (sigma_of f * sigma_of f))) 0);
    [exfalso; lra | reflexivity].
Qed.

(** With a variance in range every weight is a finite value that is not
    negative. *)
Lemma response_entry_finite w c f :
  variance_in_range f ->
  exists g, response_entry w (Fin c) (gaussian_sigma (Fin f)) = Fin g /\ 0 <= g.
Proof.
  intro Hr.
  destruct (response_entry_variance_in_range w c f Hr) as [n [_ [Hn ->]]].
  destruct (in_range_finite _ (quotient_bounds f n Hr Hn)) as [g [E Hg]].
  exists g. split; [exact E | lra].
Qed.

(** When the variance underflows to zero every weight is NaN. *)
Lemma response_entry_variance_underflow w c f :
  sigma_of f * sigma_of f <= underflow_bound ->
  response_entry w (Fin c) (gaussian_sigma (Fin f)) = NaN.
Proof.
  intro Hu.
  rewrite response_entry_unfold,
    (in_range_underflow _ (sqr_nonneg (sigma_of f)) Hu).
  cbn [fmul frange]. replace (2 * 0) with 0 by ring.
  replace (2 * PI * 0) with 0 by ring. rewrite in_range_0.
  assert (Hd : fsqrt (Fin 0) = Fin 0).
  { cbn. destruct (Rlt_dec 0 0); [exfalso; lra |]. rewrite sqrt_0. reflexivity. }
  rewrite Hd.
  destruct (numerator_zero_variance (w + - c)) as [-> | ->].
  - rewrite fdiv_zero_zero. reflexivity.
  - reflexivity.
Qed.

(** When [2 * pi * var] overflows every weight is zero, or NaN. *)
Lemma response_entry_variance_overflow w c f :
  underflow_bound < sigma_of f * sigma_of f ->
  overflow_bound <= 2 * PI * (sigma_of f * sigma_of f) ->
  response_entry w (Fin c) (gaussian_sigma (Fin f)) = Fin 0 \/
  response_entry w (Fin c) (gaussian_sigma (Fin f)) = NaN.
Proof.
  intros Hu Ho. rewrite response_entry_unfold.
  pose proof overflow_bound_big as Hb. pose proof underflow_bound_pos as Hp.
  pose proof PI_gt_1 as Hpi.
  assert (Hden : fsqrt (frange (fmul (Fin (2 * PI))
                                     (in_range (sigma_of f * sigma_of f)))) = PInf).
  { destruct (in_range_cases _ (sqr_nonneg (sigma_of f)))
      as [[_ H] | [[E _] | [E _]]]; [exfalso; lra | |]; rewrite E.
    - cbn. unfold inf_times, Rsign.
      destruct (total_order_T (2 * PI) 0) as [[?|?]|?]; try (exfalso; lra).
      reflexivity.
    - cbn [fmul frange]. rewrite in_range_overflow by assumption. reflexivity. }
  rewrite Hden.
  assert (Hnum : exists n,
             fexp (fdiv (fneg (fpow2 (Fin (w + - c))))
                        (frange (fmul (Fin 2)
                                      (in_range (sigma_of f * sigma_of f)))))
             = Fin n \/
             fexp (fdiv (fneg (fpow2 (Fin (w + - c))))
                        (frange (fmul (Fin 2)
                                      (in_range (sigma_of f * sigma_of f)))))
             = NaN).
  { destruct (in_range_cases _ (sqr_nonneg (sigma_of f)))
      as [[_ H] | [[E _] | [E _]]]; [exfalso; lra | |]; rewrite E.
    - assert (E2 : frange (fmul (Fin 2) PInf) = PInf).
      { cbn. unfold inf_times, Rsign.
        destruct (total_order_T 2 0) as [[?|?]|?]; try (exfalso; lra).
        reflexivity. }
      rewrite E2. destruct (numerator_overflow (w + - c)) as [-> | ->];
        [exists 1; left; reflexivity | exists 0; right; reflexivity].
    - cbn [fmul frange].
      destruct (in_range_cases (2 * (sigma_of f * sigma_of f)))
        as [[_ H] | [[E2 _] | [E2 _]]]; [lra | exfalso; lra | |]; rewrite E2.
      + destruct (numerator_overflow (w + - c)) as [-> | ->];
          [exists 1; left; reflexivity | exists 0; right; reflexivity].
      + destruct (numerator_cases (w + - c) (sigma_of f * sigma_of f))
          as [n [-> _]]; [lra |].
        exists n. left. reflexivity. }
  destruct Hnum as [n [-> | ->]].
  - cbn [fdiv frange]. left. apply in_range_0.
  - right. reflexivity.
Qed.

Lemma response_entry_nonneg_or_nan w c f :
  nonneg_or_nan (response_entry w (Fin c) (gaussian_sigma (Fin f))).
Proof.
  destruct (Rle_dec (sigma_of f * sigma_of f) underflow_bound) as [Hu | Hu].
  - rewrite response_entry_variance_underflow by assumption. exact I.
  - destruct (Rle_dec overflow_bound (2 * PI * (sigma_of f * sigma_of f)))
      as [Ho | Ho].
    + destruct (response_entry_variance_overflow w c f) as [-> | ->];
        [lra | assumption | cbn; lra | exact I].
    + destruct (response_entry_finite w c f) as [g [-> Hg]];
        [split; lra | exact Hg].
Qed.
(** ** The column of a band *)

Lemma nonneg_or_nan_fin_or_nan x : nonneg_or_nan x -> fin_or_nan x.
Proof. destruct x; cbn; tauto. Qed.

Lemma response_column_nonneg_or_nan wave c f :
  Forall nonneg_or_nan (response_column wave (Fin c) (gaussian_sigma (Fin f))).
Proof.
  unfold response_column. apply Forall_map, Forall_forall. intros w _.
  apply response_entry_nonneg_or_nan.
Qed.

Lemma response_column_variance_underflow wave c f :
  sigma_of f * sigma_of f <= underflow_bound ->
  response_column wave (Fin c) (gaussian_sigma (Fin f)) = map (fun _ => NaN) wave.
Proof.
  intro H. unfold response_column. apply map_ext. intro w.
  apply response_entry_variance_underflow, H.
Qed.

Lemma sigma_of_0 : sigma_of 0 = 0.
Proof. unfold sigma_of, Rdiv. ring. Qed.

Lemma response_column_zero_fwhm wave c :
  response_column wave (Fin c) (gaussian_sigma (Fin 0)) = map (fun _ => NaN) wave.
Proof.
  apply response_column_variance_underflow. rewrite sigma_of_0.
  pose proof underflow_bound_pos. lra.
Qed.

Lemma normalize_column_NaN (A : Type) (l : list A) :
  normalize_column (map (fun _ => NaN) l) = map (fun _ => NaN) l.
Proof.
  destruct l as [|a l]; [apply normalize_column_nil |].
  unfold normalize_column. rewrite fsum_NaN_column by discriminate. reflexivity.
Qed.

Lemma normalize_column_zero_fwhm wave c :
  normalize_column (response_column wave (Fin c) (gaussian_sigma (Fin 0)))
  = map (fun _ => NaN) wave.
Proof. rewrite response_column_zero_fwhm. apply normalize_column_NaN. Qed.

(** The sum of weights is a non-negative finite value, or NaN. *)
Lemma fsum_nonneg_or_nan col :
  Forall nonneg_or_nan col -> nonneg_or_nan (fsum col).
Proof.
  unfold fsum. induction 1 as [|x col Hx _ IH]; cbn [fold_right]; [cbn; lra |].
  destruct x as [a| | |], (fold_right fadd (Fin 0) col) as [b| | |];
    cbn in *; try tauto. lra.
Qed.

(** A column of weights whose sum is greater than zero holds finite,
    non-negative values only. *)
Lemma positive_sum_inv col :
  Forall nonneg_or_nan col -> fgt0 (fsum col) = true ->
  exists rs, col = map Fin rs /\ 0 < rsum rs /\ Forall (fun r => 0 <= r) rs.
Proof.
  intros Hcol Hs. pose proof (fsum_nonneg_or_nan col Hcol) as Hn.
  destruct (fsum col) as [s| | |] eqn:E; cbn in Hn, Hs; try tauto;
    try discriminate.
  destruct (Rlt_dec 0 s) as [Hpos|]; [| discriminate].
  destruct (fsum_Fin_inv col s E) as [rs [-> Hrs]].
  exists rs. split; [reflexivity |]. split; [lra |].
  rewrite Forall_map in Hcol. exact Hcol.
Qed.

(** A column of weights whose sum is exactly zero holds zeros only. *)
Lemma zero_sum_inv col :
  Forall nonneg_or_nan col -> fsum col = Fin 0 -> col = map (fun _ => Fin 0) col.
Proof.
  intros Hw H. destruct (fsum_Fin_inv col 0 H) as [rs [-> Hrs]].
  rewrite Forall_map in Hw. cbn in Hw.
  rewrite map_map. apply map_ext_Forall.
  assert (G : forall l, Forall (fun r => 0 <= r) l -> 0 <= rsum l /\
                        (rsum l = 0 -> Forall (fun r => Fin r = Fin 0) l)).
  { induction 1 as [|r l Hr _ [IH1 IH2]]; cbn.
    - split; [lra | constructor].
    - fold (rsum l). split; [lra |]. intro E.
      constructor; [f_equal; lra | apply IH2; lra]. }
  apply G; assumption.
Qed.

Lemma normalize_column_not_positive col :
  fgt0 (fsum col) = false -> normalize_column col = col.
Proof. intro H. unfold normalize_column. rewrite H. reflexivity. Qed.

Lemma normalize_column_positive col :
  Forall nonneg_or_nan col -> fgt0 (fsum col) = true ->
  exists ms,
    normalize_column col = map Fin ms /\
    rsum ms = 1 /\ length ms = length col /\ Forall (fun m => 0 <= m) ms.
Proof.
  intros Hcol Hs. destruct (positive_sum_inv col Hcol Hs) as [rs [-> [Hpos Hrs]]].
  rewrite normalize_column_Fin by assumption.
  eexists. split; [reflexivity |]. split; [| split].
  - rewrite rsum_map_div. field. lra.
  - rewrite !length_map. reflexivity.
  - rewrite Forall_map. eapply Forall_impl; [| exact Hrs].
    intros r Hr. cbn in Hr. unfold Rdiv. apply Rmult_le_pos; [assumption |].
    left. apply Rinv_0_lt_compat, Hpos.
Qed.

Lemma normalize_column_nonneg_or_nan col :
  Forall nonneg_or_nan col -> Forall nonneg_or_nan (normalize_column col).
Proof.
  intro Hcol. destruct (fgt0 (fsum col)) eqn:E.
  - destruct (normalize_column_positive col Hcol E) as [ms [-> [_ [_ Hms]]]].
    rewrite Forall_map. exact Hms.
  - rewrite normalize_column_not_positive by assumption. exact Hcol.
Qed.

(** A normalized column of finite band descriptors holds finite values and
    NaN only. *)
Lemma normalized_column_fin_or_nan wave c f :
  Forall fin_or_nan
    (normalize_column (response_column wave (Fin c) (gaussian_sigma (Fin f)))).
Proof.
  eapply Forall_impl; [exact nonneg_or_nan_fin_or_nan |].
  apply normalize_column_nonneg_or_nan, response_column_nonneg_or_nan.
Qed.

(** The weights of a band that the program normalizes. *)
Lemma normalized_band_weights wave c f :
  normalized_band wave c f ->
  exists ms,
    normalize_column (response_column wave (Fin c) (gaussian_sigma (Fin f)))
    = map Fin ms /\
    rsum ms = 1 /\ length ms = length wave /\ Forall (fun m => 0 <= m) ms.
Proof.
  intro H.
  destruct (normalize_column_positive _ (response_column_nonneg_or_nan wave c f) H)
    as [ms [E [Hs [Hl Hm]]]].
  exists ms. repeat split; try assumption.
  rewrite Hl. unfold response_column. apply length_map.
Qed.

(** ** The variance, and the weights near and far from the center *)

Lemma ln2_lt_1 : ln 2 < 1.
Proof.
  rewrite <- (ln_exp 1). apply ln_increasing; [lra |].
  pose proof (exp_ineq1 1 ltac:(lra)). lra.
Qed.

Lemma sigma_sq (f : R) : sigma_of f * sigma_of f = f * f / (8 * ln 2).
Proof.
  pose proof ln2_pos as Hl. pose proof fwhm_factor_pos as HK.
  assert (Hq : sqrt (2 * ln 2) * sqrt (2 * ln 2) = 2 * ln 2)
    by (apply sqrt_sqrt; lra).
  unfold sigma_of.
  replace (8 * ln 2) with (4 * (sqrt (2 * ln 2) * sqrt (2 * ln 2))) by lra.
  field. lra.
Qed.

(** A band of FWHM 1 has a variance that is in range. *)
Lemma variance_in_range_1 : variance_in_range 1.
Proof.
  unfold variance_in_range. rewrite sigma_sq.
  pose proof ln_lt_2 as H1. pose proof ln2_lt_1 as H2.
  pose proof underflow_bound_small as Hu. pose proof overflow_bound_big as Ho.
  pose proof PI_4 as Hpi. pose proof PI_RGT_0 as Hpi0.
  assert (H8 : / 8 < 1 * 1 / (8 * ln 2) < / 4).
  { unfold Rdiv. rewrite Rmult_1_l, Rmult_1_l. split.
    - apply Rinv_lt_contravar; nra.
    - apply Rinv_lt_contravar; nra. }
  split; [lra | nra].
Qed.

(** The weight at the center of a band. *)
Lemma response_entry_center c f :
  variance_in_range f ->
  response_entry c (Fin c) (gaussian_sigma (Fin f))
  = Fin (1 / sqrt (2 * PI * (sigma_of f * sigma_of f))).
Proof.
  intro Hr. pose proof (variance_in_range_pos f Hr) as Hv.
  destruct (response_entry_variance_in_range c c f Hr) as [n [En [_ ->]]].
  replace (c + - c) with 0 in En by ring.
  cbn [fpow2] in En. replace (0 * 0) with 0 in En by ring.
  rewrite in_range_0 in En.
  cbn [fneg] in En. unfold fdiv in En.
  destruct (Req_dec_T (2 * (sigma_of f * sigma_of f)) 0); [exfalso; lra |].
  rewrite fexp_0 in En by (unfold Rdiv; ring).
  injection En as <-.
  apply in_range_normal. unfold Rdiv. rewrite Rmult_1_l.
  apply inv_sqrt_in_range.
  destruct Hr as [Hu Ho]. pose proof PI_gt_1. pose proof underflow_bound_pos.
  split; [nra | exact Ho].
Qed.

Lemma rsum_nonneg rs : Forall (fun r => 0 <= r) rs -> 0 <= rsum rs.
Proof.
  unfold rsum. induction 1 as [|r rs Hr _ IH]; cbn; lra.
Qed.

Lemma rsum_pos_member rs x :
  Forall (fun r => 0 <= r) rs -> In x rs -> 0 < x -> 0 < rsum rs.
Proof.
  unfold rsum. induction 1 as [|r rs Hr Hrs IH]; cbn; [tauto |].
  intros [-> | Hin] Hx.
  - pose proof (rsum_nonneg rs Hrs) as H. unfold rsum in H. lra.
  - specialize (IH Hin Hx). lra.
Qed.

(** With a variance in range the column of a band holds finite values that
    are not negative. *)
Lemma response_column_finite wave c f :
  variance_in_range f ->
  exists gs,
    response_column wave (Fin c) (gaussian_sigma (Fin f)) = map Fin gs /\
    Forall (fun g => 0 <= g) gs /\
    (In c wave -> In (1 / sqrt (2 * PI * (sigma_of f * sigma_of f))) gs).
Proof.
  intro Hr. unfold response_column.
  induction wave as [|w wave [gs [E [Hgs Hin]]]].
  - exists []. split; [reflexivity |]. split; [constructor | intros []].
  - destruct (response_entry_finite w c f Hr) as [g [Eg Hg]].
    exists (g :: gs). cbn [map]. rewrite Eg, E.
    split; [reflexivity |]. split; [constructor; assumption |].
    intros [-> | H].
    + left. rewrite response_entry_center in Eg by assumption.
      injection Eg as <-. reflexivity.
    + right. apply Hin, H.
Qed.

(** A band whose center is one of the native wavelengths, and whose
    variance is in range, is normalized. *)
Lemma centered_band_normalized wave c f :
  In c wave -> variance_in_range f -> normalized_band wave c f.
Proof.
  intros Hin Hr. unfold normalized_band.
  destruct (response_column_finite wave c f Hr) as [gs [-> [Hgs Hc]]].
  rewrite fsum_map_Fin. cbn.
  assert (0 < rsum gs).
  { apply (rsum_pos_member gs _ Hgs (Hc Hin)).
    unfold Rdiv. rewrite Rmult_1_l.
    apply Rinv_0_lt_compat, denominator_pos, variance_in_range_pos, Hr. }
  destruct (Rlt_dec 0 (rsum gs)); [reflexivity | contradiction].
Qed.









Lemma response_matrix_fin_or_nan wave centers fwhm :
  Forall finite centers -> Forall finite fwhm ->
  Forall (Forall fin_or_nan) (response_matrix wave centers fwhm).
Proof.
  intros Hc. revert fwhm. unfold response_matrix.
  induction Hc as [|c centers Hc _ IH]; intros fwhm Hf; [constructor |].
  destruct Hf as [|f fwhm Hf Hfs]; [constructor |].
  cbn [combine map fst snd]. constructor; [| apply IH, Hfs].
  destruct (finite_inv c Hc) as [rc ->], (finite_inv f Hf) as [rf ->].
  apply normalized_column_fin_or_nan.
Qed.

Lemma lograd_finite rads response :
  Forall (Forall fin_or_nan) response ->
  Forall (Forall finite) (map (map np_log_where) (resample rads response)).
Proof.
  intro H. unfold resample. rewrite map_map. apply Forall_map.
  eapply Forall_impl; [| exact H]. intros col Hcol. cbn beta.
  rewrite map_map. apply Forall_map, Forall_forall. intros row _.
  destruct (np_log_where_finite (fdot row col)) as [r ->];
    [apply fdot_fin_or_nan, Hcol | reflexivity].
Qed.

Lemma np_linalg_lstsq_map_Fin A Y :
  np_linalg_lstsq A (map (map Fin) Y) = Some (map (lstsq2 A) Y).
Proof.
  induction Y as [|y Y IH]; cbn [map np_linalg_lstsq]; [reflexivity |].
  rewrite finite_values_map_Fin, IH. reflexivity.
Qed.

Lemma finite_matrix B :
  Forall (Forall finite) B -> exists Y, B = map (map Fin) Y.
Proof.
  induction 1 as [|y B Hy _ [Y ->]]; [exists []; reflexivity |].
  assert (exists ys, y = map Fin ys) as [ys ->].
  { induction Hy as [|x y Hx _ [ys ->]]; [exists []; reflexivity |].
    destruct (finite_inv x Hx) as [r ->]. exists (r :: ys). reflexivity. }
  exists (ys :: Y). reflexivity.
Qed.

Section PipelineFacts.

Variable slice : Type.
Variable map_coordinates : slice -> list R -> spline_order -> R.

Lemma generate_library_run p (w : world slice) :
  generate_library slice map_coordinates concentrations p w
  = match dataset_noms w with
    | Some d => (Returned (library_of slice map_coordinates d p, wave d), opened slice w)
    | None => (Raised FileNotFoundError, opened slice w)
    end.
Proof.
  unfold generate_library, bind, load_dataset, ret, opened, library_of.
  destruct (dataset_noms w); reflexivity.
Qed.

Lemma library_row_length d p :
  length (hd [] (library_of slice map_coordinates d p)) = length (grid_5deg_data d).
Proof.
  unfold library_of, concentrations, spline_5deg_lookup. cbn [map hd].
  apply length_map.
Qed.

(** The pipeline, step by step. *)
Lemma generate_template_run centers fwhm p (w : world slice) :
  generate_template_from_bands slice map_coordinates centers fwhm p w
  = if existsb (fun x => negb (np_isfinite x)) centers
       || existsb (fun x => negb (np_isfinite x)) fwhm
    then (Raised RuntimeError_non_finite, w)
    else if negb (length centers =? length fwhm)%nat
    then (Raised RuntimeError_length, w)
    else
      match dataset_noms w with
      | None => (Raised FileNotFoundError, opened slice w)
      | Some d =>
          if negb (length (grid_5deg_data d) =? length (wave d))%nat
          then (Raised ValueError_shapes, opened slice w)
          else
            match np_linalg_lstsq (design_matrix concentrations)
                    (lograd_of slice map_coordinates d centers fwhm p) with
            | None => (Raised LinAlg_non_finite, opened slice w)
            | Some slope =>
                (Returned (stack_target centers
                             (map (fun s => snd s * SCALING) slope)),
                 opened slice w)
            end
      end.
Proof.
  unfold generate_template_from_bands.
  destruct (existsb _ centers || existsb _ fwhm); [reflexivity |].
  destruct (negb (length centers =? length fwhm)%nat); [reflexivity |].
  unfold bind. rewrite generate_library_run.
  destruct (dataset_noms w) as [d|]; [| reflexivity].
  cbn [fst snd]. rewrite library_row_length.
  destruct (negb (length (grid_5deg_data d) =? length (wave d))%nat);
    [reflexivity |].
  fold (lograd_of slice map_coordinates d centers fwhm p).
  destruct (np_linalg_lstsq _ _); reflexivity.
Qed.

(** The regression never meets a non-finite value. *)
Lemma lograd_of_finite d centers fwhm p :
  Forall finite centers -> Forall finite fwhm ->
  exists Y, lograd_of slice map_coordinates d centers fwhm p = map (map Fin) Y.
Proof.
  intros Hc Hf. apply finite_matrix, lograd_finite.
  apply response_matrix_fin_or_nan; assumption.
Qed.

(** With valid band descriptors and a well-shaped dataset the pipeline
    returns. *)
Lemma generate_template_returns centers fwhm p (w : world slice) d :
  Forall finite centers -> Forall finite fwhm ->
  length centers = length fwhm ->
  dataset_noms w = Some d ->
  length (grid_5deg_data d) = length (wave d) ->
  exists Y,
    lograd_of slice map_coordinates d centers fwhm p = map (map Fin) Y /\
    generate_template_from_bands slice map_coordinates centers fwhm p w
    = (Returned (stack_target centers (map band_coefficient Y)), opened slice w).
Proof.
  intros Hc Hf Hlen Hd Hshape.
  destruct (lograd_of_finite d centers fwhm p Hc Hf) as [Y HY].
  exists Y. split; [exact HY |].
  rewrite generate_template_run.
  rewrite (proj2 (existsb_non_finite_false centers) Hc).
  rewrite (proj2 (existsb_non_finite_false fwhm) Hf). cbn [orb].
  rewrite Hlen, Nat.eqb_refl. cbn [negb].
  rewrite Hd, Hshape, Nat.eqb_refl. cbn [negb].
  rewrite HY, np_linalg_lstsq_map_Fin, map_map. reflexivity.
Qed.

End PipelineFacts.

(** ** Bands of FWHM zero and non-positive radiances *)

(** C5. The claim fails on a band with FWHM 0, whose descriptors are finite
    and pass the validation: over the wavelength axis [1], the band of
    center 1 and FWHM 0 has sigma, variance and denominator zero, so its
    only weight is NaN and the column of the band in the Response Matrix is
    [NaN].  The weights of the band do not sum to exactly zero, yet the
    column is not normalized to sum to 1, and it holds a NaN. *)
Theorem zero_fwhm_column_not_normalised :
  response_matrix [1] [Fin 1] [Fin 0] = [[NaN]] /\
  ~ (fsum (response_column [1] (Fin 1) (gaussian_sigma (Fin 0))) = Fin 0 \/
     fsum (hd [] (response_matrix [1] [Fin 1] [Fin 0])) = Fin 1).
Proof.
  assert (E : response_matrix [1] [Fin 1] [Fin 0] = [[NaN]]).
  { unfold response_matrix. cbn [combine map fst snd].
    rewrite normalize_column_zero_fwhm. reflexivity. }
  split; [exact E |].
  rewrite E, response_column_zero_fwhm. cbn. intros [H | H]; discriminate.
Qed.



(** ** Input validation *)

Section Validation.

Variable slice : Type.
Variable map_coordinates : slice -> list R -> spline_order -> R.

Local Abbreviation run := (generate_template_from_bands slice map_coordinates).

(** C4. [generate_template_from_bands] raises one of its two validation
    errors if and only if some band center or FWHM is not finite or the
    two sequences differ in length; it does so before the dataset is
    opened, so the world is left as it was and nothing is returned; when
    the validation passes the dataset is opened afterwards. *)
Theorem validation_before_grid_access :
  forall (centers fwhm : list fval) (p : scene_params) (w : world slice),
    ((exists e, fst (run centers fwhm p w) = Raised e /\
                is_validation_error e = true)
     <-> invalid_bands centers fwhm) /\
    (invalid_bands centers fwhm ->
     snd (run centers fwhm p w) = w /\
     exists e, fst (run centers fwhm p w) = Raised e) /\
    (~ invalid_bands centers fwhm ->
     snd (run centers fwhm p w) = opened slice w).
Proof.
  intros centers fwhm p w. rewrite generate_template_run. unfold invalid_bands.
  destruct (existsb _ centers) eqn:Ec.
  { apply existsb_non_finite_true in Ec. cbn [orb fst snd].
    repeat split; eauto; tauto. }
  destruct (existsb _ fwhm) eqn:Ef.
  { apply existsb_non_finite_true in Ef. cbn [orb fst snd].
    repeat split; eauto; tauto. }
  cbn [orb].
  destruct (length centers =? length fwhm)%nat eqn:El; cbn [negb].
  2:{ apply Nat.eqb_neq in El. cbn [fst snd]. repeat split; eauto; tauto. }
  apply Nat.eqb_eq in El.
  apply existsb_non_finite_false in Ec, Ef.
  assert (Hvalid : ~ (Exists (fun x => ~ finite x) centers \/
                      Exists (fun x => ~ finite x) fwhm \/
                      length centers <> length fwhm)).
  { intros [H | [H | H]]; [| | congruence];
      apply Exists_exists in H; destruct H as [x [Hin Hx]]; apply Hx;
      [apply (proj1 (Forall_forall _ _) Ec) | apply (proj1 (Forall_forall _ _) Ef)];
      exact Hin. }
  assert (Hout : forall out : result (list (nat * fval * R)) * world slice,
             snd out = opened slice w ->
             (forall e, fst out = Raised e -> is_validation_error e = false) ->
             ((exists e, fst out = Raised e /\ is_validation_error e = true)
              <-> Exists (fun x => ~ finite x) centers \/
                  Exists (fun x => ~ finite x) fwhm \/
                  length centers <> length fwhm) /\
             (Exists (fun x => ~ finite x) centers \/
              Exists (fun x => ~ finite x) fwhm \/
              length centers <> length fwhm ->
              snd out = w /\ exists e, fst out = Raised e) /\
             (~ (Exists (fun x => ~ finite x) centers \/
                 Exists (fun x => ~ finite x) fwhm \/
                 length centers <> length fwhm) ->
              snd out = opened slice w)).
  { intros out Hw He. repeat split; try tauto.
    intros [e [H1 H2]]. rewrite (He e H1) in H2. discriminate. }
  destruct (dataset_noms w) as [d|];
    [| apply Hout; [reflexivity | cbn; intros e [= <-]; reflexivity]].
  destruct (negb _);
    [apply Hout; [reflexivity | cbn; intros e [= <-]; reflexivity] |].
  destruct (np_linalg_lstsq _ _);
    apply Hout; try reflexivity; cbn; intros e; [discriminate |].
  intros [= <-]. reflexivity.
Qed.

End Validation.

Lemma validation_before_grid_access_witness :
  invalid_bands [NaN] [Fin 1] /\
  snd (generate_template_from_bands unit (constant_radiance 1) [NaN] [Fin 1]
         example_params empty_world) = empty_world.
Proof.
  assert (H : invalid_bands [NaN] [Fin 1]).
  { left. constructor. unfold finite. cbn. discriminate. }
  split; [exact H |].
  apply (proj1 (proj2 (validation_before_grid_access unit (constant_radiance 1)
                         [NaN] [Fin 1] example_params empty_world)) H).
Defined.

(** ** Slope Regressor *)



Section LeastSquares.

Variable A : list (R * R).
Variable y : list R.
Hypothesis same_length : length A = length y.
Hypothesis full_rank : gram_det A <> 0.









End LeastSquares.

(** The sums of the design matrix of a ladder [cs], and the moments of
    values that are affine in the ladder. *)
Lemma moments_affine cs a b :
  moment1 (design_matrix cs) (map (fun c => a + b * c) cs)
  = a * gram11 (design_matrix cs) + b * gram12 (design_matrix cs) /\
  moment2 (design_matrix cs) (map (fun c => a + b * c) cs)
  = a * gram12 (design_matrix cs) + b * gram22 (design_matrix cs).
Proof.
  unfold moment1, moment2, gram11, gram12, gram22, design_matrix, rsum.
  induction cs as [|c cs [IH1 IH2]]; cbn; [split; ring |].
  cbn in IH1, IH2. rewrite IH1, IH2. split; ring.
Qed.

Lemma lstsq2_affine cs a b :
  gram_det (design_matrix cs) <> 0 ->
  lstsq2 (design_matrix cs) (map (fun c => a + b * c) cs) = (a, b).
Proof.
  intro Hdet. unfold lstsq2.
  destruct (moments_affine cs a b) as [-> ->].
  unfold gram_det in *. f_equal; field; assumption.
Qed.

Lemma design_full_rank : gram_det (design_matrix concentrations) <> 0.
Proof.
  unfold gram_det, gram11, gram12, gram22, design_matrix, concentrations, rsum.
  cbn. lra.
Qed.

Lemma design_grams :
  gram11 (design_matrix concentrations) = 8 /\
  gram12 (design_matrix concentrations) = 63500 /\
  gram22 (design_matrix concentrations) = 1365250000.
Proof.
  unfold gram11, gram12, gram22, design_matrix, concentrations, rsum.
  cbn. repeat split; lra.
Qed.


Lemma band_coefficient_affine a b :
  band_coefficient (map (fun c => a + b * c) concentrations) = b * SCALING.
Proof.
  unfold band_coefficient. rewrite lstsq2_affine by apply design_full_rank.
  reflexivity.
Qed.

Lemma np_log_where_exp x : np_log_where (Fin (exp x)) = Fin x.
Proof.
  rewrite np_log_where_pos by apply exp_pos.
  rewrite ln_exp. reflexivity.
Qed.

(** A row of constant radiance resampled through a column of finite
    weights. *)
Lemma fdot_constant_row (T : Type) (v : R) (grid : list T) (ms : list R) :
  length grid = length ms ->
  fdot (map (fun _ => v) grid) (map Fin ms) = Fin (v * rsum ms).
Proof.
  unfold fdot, fsum, rsum. revert ms.
  induction grid as [|g grid IH]; intros [|m ms] H; try discriminate;
    cbn [map combine fold_right fst snd].
  - f_equal. ring.
  - rewrite IH by (cbn in H; congruence). cbn. f_equal. ring.
Qed.

Lemma nth_error_combine (S T : Type) (l : list S) (l' : list T) j a b :
  nth_error l j = Some a -> nth_error l' j = Some b ->
  nth_error (combine l l') j = Some (a, b).
Proof.
  revert l l'. induction j as [|j IH]; intros [|x l] [|x' l'] H H';
    try discriminate; cbn in *.
  - congruence.
  - auto.
Qed.

Lemma nth_error_seq_1 n j : (j < n)%nat -> nth_error (seq 1 n) j = Some (S j).
Proof.
  intro H. rewrite nth_error_nth' with (d := 0%nat) by (rewrite length_seq; lia).
  rewrite seq_nth by lia. reflexivity.
Qed.

Lemma map_Fin_injective l l' : map Fin l = map Fin l' -> l = l'.
Proof.
  revert l'. induction l as [|x l IH]; intros [|x' l'] H; try discriminate;
    [reflexivity |].
  cbn in H. injection H as -> H. f_equal. auto.
Qed.



(** * Part III: further properties of the program *)

(** ** Axis Index Mapper *)

Lemma log2_increasing (x y : R) : 0 < x -> x < y -> log2 x < log2 y.
Proof.
  intros Hx Hxy. unfold log2, Rdiv.
  apply Rmult_lt_compat_r.
  - apply Rinv_0_lt_compat, ln2_pos.
  - apply ln_increasing; assumption.
Qed.

Lemma log2_ge_1 (x : R) : 2 <= x -> 1 <= log2 x.
Proof.
  intro H. replace 1 with (log2 (2 ^ 1)) by (rewrite log2_pow2; reflexivity).
  destruct H as [H | <-].
  - left. apply log2_increasing; lra.
  - right. f_equal. lra.
Qed.

(** X1. The ground-elevation mapper is strictly increasing over the reals
    and has no jump where its formula changes: between two elevations it
    rises by no more than twice their difference.  It does not clamp: a
    negative elevation gets a negative index.  The grid nodes 0, 0.5, 1, 2
    and 3 km fall on the indices 0, 1, 2, 3 and 4. *)
Theorem ground_altitude_index_increasing :
  (forall u v : R,
      u < v ->
      get_5deg_ground_altitude_index u < get_5deg_ground_altitude_index v /\
      get_5deg_ground_altitude_index v - get_5deg_ground_altitude_index u
      <= 2 * (v - u)) /\
  (forall v : R, v < 0 -> get_5deg_ground_altitude_index v < 0) /\
  map get_5deg_ground_altitude_index [0; 1 / 2; 1; 2; 3] = [0; 1; 2; 3; 4].
Proof.
  unfold get_5deg_ground_altitude_index.
  split; [| split]; intros; cbn [map].
  - branches; lra.
  - branches; lra.
  - repeat f_equal; branches; lra.
Qed.

Lemma ground_altitude_index_increasing_witness :
  1 / 2 < 3 /\
  get_5deg_ground_altitude_index (1 / 2) < get_5deg_ground_altitude_index 3.
Proof.
  split; [lra |].
  apply (proj1 ground_altitude_index_increasing (1 / 2) 3). lra.
Defined.

(** X2. The methane mapper is monotone non-decreasing over the reals, never
    negative, and strictly increasing from 0 on, so that two different
    non-negative concentrations never get the same index. *)
Theorem methane_index_monotone :
  (forall u v : R,
      u <= v -> get_5deg_methane_index u <= get_5deg_methane_index v) /\
  (forall v : R, 0 <= get_5deg_methane_index v) /\
  (forall u v : R,
      0 <= u -> u < v -> get_5deg_methane_index u < get_5deg_methane_index v).
Proof.
  assert (Hpos : forall v, 1000 <= v -> 1 <= log2 (v / 500)).
  { intros v Hv. apply log2_ge_1. lra. }
  assert (Hstrict : forall u v : R,
             0 <= u -> u < v ->
             get_5deg_methane_index u < get_5deg_methane_index v).
  { intros u v Hu Huv. unfold get_5deg_methane_index. branches; try lra.
    - pose proof (Hpos v). lra.
    - pose proof (Hpos v). lra.
    - apply log2_increasing; lra. }
  assert (Hnn : forall v : R, 0 <= get_5deg_methane_index v).
  { intro v. unfold get_5deg_methane_index. branches; try lra.
    pose proof (Hpos v). lra. }
  repeat split; [| exact Hnn | exact Hstrict].
  intros u v [Huv | ->]; [| lra].
  destruct (Rle_dec 0 u) as [Hu | Hu].
  - left. apply Hstrict; assumption.
  - replace (get_5deg_methane_index u) with 0; [apply Hnn |].
    unfold get_5deg_methane_index. branches; lra.
Qed.

Lemma methane_index_monotone_witness :
  0 <= 750 /\ 750 < 3000 /\
  get_5deg_methane_index 750 < get_5deg_methane_index 3000.
Proof.
  split; [lra |]. split; [lra |].
  apply (proj2 (proj2 methane_index_monotone) 750 3000); lra.
Defined.

(** X3. Between the first and the last grid node the sensor-height mapper
    is strictly increasing, so it loses no information there, while every
    height up to 1 km gets the index of 1 km and every height from 200 km
    on the index of 200 km.  The grid nodes 1, 2, 4, 10, 20 and 200 km
    fall on the indices 0 to 5. *)
Theorem sensor_height_index_nodes :
  (forall u v : R,
      1 <= u -> u < v -> v <= 200 ->
      get_5deg_sensor_height_index u < get_5deg_sensor_height_index v) /\
  (forall v : R,
      v <= 1 -> get_5deg_sensor_height_index v = get_5deg_sensor_height_index 1) /\
  (forall v : R,
      200 <= v ->
      get_5deg_sensor_height_index v = get_5deg_sensor_height_index 200) /\
  map get_5deg_sensor_height_index [1; 2; 4; 10; 20; 200] = [0; 1; 2; 3; 4; 5].
Proof.
  unfold get_5deg_sensor_height_index.
  split; [| split; [| split]]; intros; cbn [map].
  - branches; lra.
  - branches; lra.
  - branches; lra.
  - repeat f_equal; branches; lra.
Qed.

Lemma sensor_height_index_nodes_witness :
  1 <= 3 /\ 3 < 150 /\ 150 <= 200 /\
  get_5deg_sensor_height_index 3 < get_5deg_sensor_height_index 150.
Proof.
  split; [lra |]. split; [lra |]. split; [lra |].
  apply (proj1 sensor_height_index_nodes 3 150); lra.
Defined.

(** ** Grid Interpolator *)

Section Library.

Variable slice : Type.
Variable map_coordinates : slice -> list R -> spline_order -> R.

Local Abbreviation lookup := (spline_5deg_lookup slice map_coordinates).

(** X4. A lookup yields one radiance per wavelength slice of the grid, and
    parameters outside the grid are clamped by the mappers before the grid
    is read: a methane value below zero gives the spectrum of zero methane,
    a sensor height above 200 km that of 200 km, and one below 1 km that of
    1 km. *)
Theorem lookup_clamps_out_of_grid :
  forall (grid : list slice) (z s g wv m : R) (o : spline_order),
    length (lookup grid z s g wv m o) = length grid /\
    (m <= 0 -> lookup grid z s g wv m o = lookup grid z s g wv 0 o) /\
    (200 <= s -> lookup grid z s g wv m o = lookup grid z 200 g wv m o) /\
    (s <= 1 -> lookup grid z s g wv m o = lookup grid z 1 g wv m o).
Proof.
  intros grid z s g wv m o. unfold spline_5deg_lookup, get_5deg_lookup_index.
  split; [apply length_map |].
  repeat split; intro H.
  - replace (get_5deg_methane_index m) with (get_5deg_methane_index 0);
      [reflexivity |].
    unfold get_5deg_methane_index. branches; lra.
  - replace (get_5deg_sensor_height_index s)
      with (get_5deg_sensor_height_index 200); [reflexivity |].
    unfold get_5deg_sensor_height_index. branches; lra.
  - replace (get_5deg_sensor_height_index s)
      with (get_5deg_sensor_height_index 1); [reflexivity |].
    unfold get_5deg_sensor_height_index. branches; lra.
Qed.

End Library.

Lemma lookup_clamps_out_of_grid_witness :
  -5 <= 0 /\
  spline_5deg_lookup unit (fun _ coords _ => nth 4 coords 0) [tt] 0 200 0 0 (-5) Linear
  = spline_5deg_lookup unit (fun _ coords _ => nth 4 coords 0) [tt] 0 200 0 0 0 Linear.
Proof.
  split; [lra |].
  apply (proj1 (proj2 (lookup_clamps_out_of_grid unit
                         (fun _ coords _ => nth 4 coords 0)
                         [tt] 0 200 0 0 (-5) Linear))).
  lra.
Defined.

(** ** Outcomes of the pipeline *)

Lemma stack_target_nth centers spectrum j c v :
  nth_error centers j = Some c -> nth_error spectrum j = Some v ->
  nth_error (stack_target centers spectrum) j = Some (S j, c, v).
Proof.
  intros Hc Hv. unfold stack_target.
  apply nth_error_combine; [apply nth_error_combine |]; try assumption.
  apply nth_error_seq_1, nth_error_Some. rewrite Hv. discriminate.
Qed.

Lemma stack_target_length centers spectrum :
  length centers = length spectrum ->
  length (stack_target centers spectrum) = length centers.
Proof.
  intro H. unfold stack_target.
  rewrite !length_combine, length_seq. lia.
Qed.

Lemma np_log_where_NaN_dot row (T : Type) (l : list T) :
  np_log_where (fdot row (map (fun _ => NaN) l)) = Fin 0.
Proof.
  unfold fdot.
  assert (H : forall xs : list (R * fval),
             Forall (fun rm => snd rm = NaN) xs ->
             fsum (map (fun rm => fmul (Fin (fst rm)) (snd rm)) xs) = Fin 0 \/
             fsum (map (fun rm => fmul (Fin (fst rm)) (snd rm)) xs) = NaN).
  { intros xs Hxs. destruct Hxs as [|[r m] xs Hm _]; [left; reflexivity |].
    right. cbn in Hm. subst m. reflexivity. }
  destruct (H (combine row (map (fun _ => NaN) l))) as [-> | ->].
  - apply Forall_forall. intros [r m] Hin. apply in_combine_r in Hin.
    apply in_map_iff in Hin. destruct Hin as [x [Hx _]]. symmetry. exact Hx.
  - unfold np_log_where. cbn. destruct (Rlt_dec 0 0); [exfalso; lra | reflexivity].
  - reflexivity.
Qed.

Lemma band_coefficient_zero (T : Type) (l : list T) :
  length l = length concentrations ->
  band_coefficient (map (fun _ => 0) l) = 0.
Proof.
  intro Hlen.
  assert (E : map (fun _ : T => 0) l = map (fun c => 0 + 0 * c) concentrations).
  { unfold concentrations in *.
    do 9 (destruct l as [|? l]; try discriminate). cbn.
    repeat f_equal; ring. }
  rewrite E, band_coefficient_affine. ring.
Qed.

Section Outcomes.

Variable slice : Type.
Variable map_coordinates : slice -> list R -> spline_order -> R.

Local Abbreviation run := (generate_template_from_bands slice map_coordinates).

(** The column of logarithms of one band is computed from the center and
    the FWHM of that band alone. *)
Lemma lograd_of_nth d centers fwhm p j c f :
  nth_error centers j = Some c -> nth_error fwhm j = Some f ->
  nth_error (lograd_of slice map_coordinates d centers fwhm p) j
  = Some (map np_log_where
            (map (fun row =>
                    fdot row (normalize_column
                                (response_column (wave d) c (gaussian_sigma f))))
                 (library_of slice map_coordinates d p))).
Proof.
  intros Hc Hf. unfold lograd_of, resample, response_matrix.
  rewrite !map_map, nth_error_map, (nth_error_combine _ _ _ _ _ _ _ Hc Hf).
  reflexivity.
Qed.

Lemma lograd_of_length d centers fwhm p :
  length centers = length fwhm ->
  length (lograd_of slice map_coordinates d centers fwhm p) = length centers.
Proof.
  intro H. unfold lograd_of, resample, response_matrix.
  rewrite !length_map, length_combine. lia.
Qed.

Lemma library_of_length d p :
  length (library_of slice map_coordinates d p) = length concentrations.
Proof. unfold library_of. apply length_map. Qed.

(** X6. The outcomes of the pipeline, in the order in which the source
    decides them.  A non-finite center or FWHM is reported first, also when
    the lengths differ as well; then a difference in length; both leave the
    dataset unopened.  With valid descriptors, a missing dataset file gives
    [FileNotFoundError] and a dataset whose grid and wavelength axis
    disagree in size gives the shape error of the matrix product.  The
    regression never receives a non-finite value, and no run opens the
    dataset more than once. *)
Theorem pipeline_outcomes :
  forall (centers fwhm : list fval) (p : scene_params) (w : world slice),
    (Exists (fun x => ~ finite x) centers \/
     Exists (fun x => ~ finite x) fwhm ->
     run centers fwhm p w = (Raised RuntimeError_non_finite, w)) /\
    (Forall finite centers -> Forall finite fwhm ->
     length centers <> length fwhm ->
     run centers fwhm p w = (Raised RuntimeError_length, w)) /\
    (Forall finite centers -> Forall finite fwhm ->
     length centers = length fwhm ->
     dataset_noms w = None ->
     run centers fwhm p w = (Raised FileNotFoundError, opened slice w)) /\
    (forall d,
        Forall finite centers -> Forall finite fwhm ->
        length centers = length fwhm ->
        dataset_noms w = Some d ->
        length (grid_5deg_data d) <> length (wave d) ->
        run centers fwhm p w = (Raised ValueError_shapes, opened slice w)) /\
    fst (run centers fwhm p w) <> Raised LinAlg_non_finite /\
    (loads (snd (run centers fwhm p w)) <= S (loads w))%nat.
Proof.
  intros centers fwhm p w. rewrite generate_template_run.
  split.
  { intros [H | H]; apply existsb_non_finite_true in H; rewrite H;
      [| rewrite orb_true_r]; reflexivity. }
  split.
  { intros Hc Hf Hlen.
    rewrite (proj2 (existsb_non_finite_false centers) Hc).
    rewrite (proj2 (existsb_non_finite_false fwhm) Hf). cbn [orb].
    apply Nat.eqb_neq in Hlen. rewrite Hlen. reflexivity. }
  split.
  { intros Hc Hf Hlen Hd.
    rewrite (proj2 (existsb_non_finite_false centers) Hc).
    rewrite (proj2 (existsb_non_finite_false fwhm) Hf). cbn [orb].
    rewrite Hlen, Nat.eqb_refl, Hd. reflexivity. }
  split.
  { intros d Hc Hf Hlen Hd Hshape.
    rewrite (proj2 (existsb_non_finite_false centers) Hc).
    rewrite (proj2 (existsb_non_finite_false fwhm) Hf). cbn [orb].
    rewrite Hlen, Nat.eqb_refl, Hd. cbn [negb].
    apply Nat.eqb_neq in Hshape. rewrite Hshape. reflexivity. }
  destruct (existsb _ centers) eqn:Ec; [cbn; split; [discriminate | lia] |].
  destruct (existsb _ fwhm) eqn:Ef; [cbn; split; [discriminate | lia] |].
  cbn [orb].
  destruct (negb (length centers =? length fwhm)%nat);
    [cbn; split; [discriminate | lia] |].
  destruct (dataset_noms w) as [d|]; [| cbn; split; [discriminate | lia]].
  destruct (negb _); [cbn; split; [discriminate | lia] |].
  apply existsb_non_finite_false in Ec, Ef.
  destruct (lograd_of_finite slice map_coordinates d centers fwhm p Ec Ef)
    as [Y ->].
  rewrite np_linalg_lstsq_map_Fin. cbn. split; [discriminate | lia].
Qed.

(** X7. When the pipeline returns, the output has one row per band, in the
    order of the bands; the row of a band begins with its position counted
    from 1, followed by its center as it was given. *)
Theorem template_rows :
  forall (centers fwhm : list fval) (p : scene_params)
         (w : world slice) (target : list (nat * fval * R)),
    fst (run centers fwhm p w) = Returned target ->
    length target = length centers /\
    forall j c,
      nth_error centers j = Some c ->
      exists coefficient, nth_error target j = Some (S j, c, coefficient).
Proof.
  intros centers fwhm p w target. rewrite generate_template_run.
  destruct (existsb _ centers) eqn:Ec; [discriminate |].
  destruct (existsb _ fwhm) eqn:Ef; [discriminate |].
  cbn [orb].
  destruct (length centers =? length fwhm)%nat eqn:El; [| discriminate].
  cbn [negb]. apply Nat.eqb_eq in El.
  destruct (dataset_noms w) as [d|]; [| discriminate].
  destruct (negb _); [discriminate |].
  destruct (np_linalg_lstsq _ _) as [slope|] eqn:Es; [| discriminate].
  cbn [fst]. intros [= <-].
  apply existsb_non_finite_false in Ec, Ef.
  destruct (lograd_of_finite slice map_coordinates d centers fwhm p Ec Ef)
    as [Y HY].
  rewrite HY, np_linalg_lstsq_map_Fin in Es. injection Es as <-.
  assert (HlenY : length Y = length centers).
  { rewrite <- (lograd_of_length d centers fwhm p El), HY, length_map.
    reflexivity. }
  split.
  - apply stack_target_length. rewrite !length_map. congruence.
  - intros j c Hc.
    destruct (nth_error Y j) as [yj|] eqn:Hy.
    + eexists. apply stack_target_nth; [exact Hc |].
      rewrite !nth_error_map, Hy. reflexivity.
    + apply nth_error_None in Hy.
      assert (j < length centers)%nat
        by (apply nth_error_Some; rewrite Hc; discriminate).
      lia.
Qed.

End Outcomes.

Lemma pipeline_outcomes_witness :
  generate_template_from_bands unit (constant_radiance 1)
    [Fin 1; PInf] [Fin 1] example_params example_world
  = (Raised RuntimeError_non_finite, example_world).
Proof.
  apply (proj1 (pipeline_outcomes unit (constant_radiance 1)
                  [Fin 1; PInf] [Fin 1] example_params example_world)).
  left. right. left. unfold finite. cbn. discriminate.
Defined.

(** The run of the examples returns. *)
Lemma example_run_returns :
  exists Y,
    generate_template_from_bands unit (constant_radiance 1)
      [Fin 1; Fin 2] [Fin 1; Fin 0] example_params example_world
    = (Returned (stack_target [Fin 1; Fin 2] (map band_coefficient Y)),
       opened unit example_world).
Proof.
  destruct (generate_template_returns unit (constant_radiance 1)
              [Fin 1; Fin 2] [Fin 1; Fin 0] example_params example_world
              example_dataset) as [Y [_ Hrun]].
  - repeat constructor.
  - repeat constructor.
  - reflexivity.
  - reflexivity.
  - reflexivity.
  - exists Y. exact Hrun.
Qed.

Lemma template_rows_witness :
  exists target,
    fst (generate_template_from_bands unit (constant_radiance 1)
           [Fin 1; Fin 2] [Fin 1; Fin 0] example_params example_world)
    = Returned target /\
    length target = 2%nat.
Proof.
  destruct example_run_returns as [Y Hrun].
  eexists. split; [rewrite Hrun; reflexivity |].
  apply (proj1 (template_rows unit (constant_radiance 1)
                  [Fin 1; Fin 2] [Fin 1; Fin 0] example_params example_world
                  _ (f_equal fst Hrun))).
Defined.

(** ** Single bands *)

Lemma fpow2_sigma_fneg x :
  fpow2 (gaussian_sigma (fneg x)) = fpow2 (gaussian_sigma x).
Proof.
  pose proof fwhm_factor_pos as HK.
  destruct x as [f| | |]; cbn [fneg]; try reflexivity.
  - rewrite !gaussian_sigma_Fin. unfold fpow2, sigma_of. cbn. f_equal. field. lra.
  - unfold gaussian_sigma, fdiv.
    destruct (Rlt_dec (2 * sqrt (2 * ln 2)) 0); [exfalso; lra | reflexivity].
  - unfold gaussian_sigma, fdiv.
    destruct (Rlt_dec (2 * sqrt (2 * ln 2)) 0); [exfalso; lra | reflexivity].
Qed.

Lemma response_matrix_fneg wave centers fwhm :
  response_matrix wave centers (map fneg fwhm) = response_matrix wave centers fwhm.
Proof.
  unfold response_matrix. revert fwhm.
  induction centers as [|c centers IH]; intros [|f fwhm]; cbn [map combine];
    try reflexivity.
  cbn [fst snd]. rewrite IH. f_equal. f_equal.
  unfold response_column. apply map_ext. intro wv.
  unfold response_entry. rewrite fpow2_sigma_fneg. reflexivity.
Qed.

Lemma existsb_non_finite_fneg l :
  existsb (fun x => negb (np_isfinite x)) (map fneg l)
  = existsb (fun x => negb (np_isfinite x)) l.
Proof.
  induction l as [|x l IH]; cbn; [reflexivity |].
  rewrite IH. destruct x; reflexivity.
Qed.

Section SingleBands.

Variable slice : Type.
Variable map_coordinates : slice -> list R -> spline_order -> R.

Local Abbreviation run := (generate_template_from_bands slice map_coordinates).

(** What a run that returns has gone through. *)
Lemma returned_target centers fwhm p (w : world slice) target :
  fst (run centers fwhm p w) = Returned target ->
  exists d Y,
    Forall finite centers /\ Forall finite fwhm /\
    length centers = length fwhm /\
    dataset_noms w = Some d /\
    length (grid_5deg_data d) = length (wave d) /\
    lograd_of slice map_coordinates d centers fwhm p = map (map Fin) Y /\
    target = stack_target centers (map band_coefficient Y).
Proof.
  rewrite generate_template_run.
  destruct (existsb _ centers) eqn:Ec; [discriminate |].
  destruct (existsb _ fwhm) eqn:Ef; [discriminate |].
  cbn [orb].
  destruct (length centers =? length fwhm)%nat eqn:El; [| discriminate].
  cbn [negb]. apply Nat.eqb_eq in El.
  destruct (dataset_noms w) as [d|]; [| discriminate].
  destruct (length (grid_5deg_data d) =? length (wave d))%nat eqn:Eg;
    [| discriminate].
  cbn [negb]. apply Nat.eqb_eq in Eg.
  apply existsb_non_finite_false in Ec, Ef.
  destruct (lograd_of_finite slice map_coordinates d centers fwhm p Ec Ef)
    as [Y HY].
  rewrite HY, np_linalg_lstsq_map_Fin, map_map. cbn [fst]. intros [= <-].
  exists d, Y. repeat split; assumption.
Qed.

Lemma lograd_column_nth d centers fwhm p Y j c f :
  lograd_of slice map_coordinates d centers fwhm p = map (map Fin) Y ->
  nth_error centers j = Some c -> nth_error fwhm j = Some f ->
  exists yj,
    nth_error Y j = Some yj /\
    map Fin yj
    = map np_log_where
        (map (fun row =>
                fdot row (normalize_column
                            (response_column (wave d) c (gaussian_sigma f))))
             (library_of slice map_coordinates d p)).
Proof.
  intros HY Hc Hf.
  pose proof (lograd_of_nth slice map_coordinates d centers fwhm p j c f Hc Hf)
    as H.
  rewrite HY, nth_error_map in H.
  destruct (nth_error Y j) as [yj|]; [| discriminate].
  cbn in H. injection H as H. exists yj. split; [reflexivity | exact H].
Qed.

(** X8. A band whose FWHM is 0 passes the validation and raises nothing:
    whenever the pipeline returns, the coefficient of such a band is
    exactly 0, whatever the grid holds. *)
Theorem zero_fwhm_coefficient :
  forall (centers fwhm : list fval) (p : scene_params) (w : world slice)
         (target : list (nat * fval * R)) (j : nat) (c : fval),
    fst (run centers fwhm p w) = Returned target ->
    nth_error centers j = Some c ->
    nth_error fwhm j = Some (Fin 0) ->
    nth_error target j = Some (S j, c, 0).
Proof.
  intros centers fwhm p w target j c Hrun Hc Hf.
  destruct (returned_target centers fwhm p w target Hrun)
    as [d [Y [Fc [_ [_ [_ [_ [HY ->]]]]]]]].
  destruct (lograd_column_nth d centers fwhm p Y j c (Fin 0) HY Hc Hf)
    as [yj [Hyj Hcol]].
  assert (Hfin : finite c).
  { eapply (proj1 (Forall_forall _ _) Fc), nth_error_In, Hc. }
  destruct (finite_inv c Hfin) as [rc ->].
  rewrite normalize_column_zero_fwhm in Hcol.
  assert (E : map np_log_where
                (map (fun row => fdot row (map (fun _ : R => NaN) (wave d)))
                     (library_of slice map_coordinates d p))
              = map Fin (map (fun _ => 0) (library_of slice map_coordinates d p))).
  { rewrite !map_map. apply map_ext. intro row. apply np_log_where_NaN_dot. }
  rewrite E in Hcol. apply map_Fin_injective in Hcol. subst yj.
  apply stack_target_nth; [exact Hc |].
  rewrite nth_error_map, Hyj. cbn [option_map]. f_equal.
  apply band_coefficient_zero, library_of_length.
Qed.

(** X9. The bands do not interact: when the pipeline returns, the
    coefficient of a band is the one the pipeline returns when it is run
    on that band alone. *)
Theorem band_coefficient_local :
  forall (centers fwhm : list fval) (p : scene_params) (w : world slice)
         (target : list (nat * fval * R)) (j : nat) (c f : fval),
    fst (run centers fwhm p w) = Returned target ->
    nth_error centers j = Some c ->
    nth_error fwhm j = Some f ->
    exists coefficient,
      nth_error target j = Some (S j, c, coefficient) /\
      fst (run [c] [f] p w) = Returned [(1%nat, c, coefficient)].
Proof.
  intros centers fwhm p w target j c f Hrun Hc Hf.
  destruct (returned_target centers fwhm p w target Hrun)
    as [d [Y [Fc [Ff [_ [Hd [Hshape [HY ->]]]]]]]].
  destruct (lograd_column_nth d centers fwhm p Y j c f HY Hc Hf)
    as [yj [Hyj Hcol]].
  assert (Hfc : finite c).
  { eapply (proj1 (Forall_forall _ _) Fc), nth_error_In, Hc. }
  assert (Hff : finite f).
  { eapply (proj1 (Forall_forall _ _) Ff), nth_error_In, Hf. }
  destruct (generate_template_returns slice map_coordinates [c] [f] p w d)
    as [Y1 [HY1 Hrun1]]; try assumption; try reflexivity;
    try (constructor; [assumption | constructor]).
  exists (band_coefficient yj). split.
  - apply stack_target_nth; [exact Hc |].
    rewrite nth_error_map, Hyj. reflexivity.
  - rewrite Hrun1. cbn [fst]. f_equal.
    destruct (lograd_column_nth d [c] [f] p Y1 0 c f HY1 eq_refl eq_refl)
      as [y0 [Hy0 Hcol0]].
    rewrite <- Hcol in Hcol0. apply map_Fin_injective in Hcol0. subst y0.
    assert (Hlen : length Y1 = 1%nat).
    { rewrite <- (length_map (map Fin) Y1), <- HY1.
      apply (lograd_of_length slice map_coordinates d [c] [f] p eq_refl). }
    destruct Y1 as [|y Y1]; [discriminate |].
    destruct Y1; [| discriminate].
    cbn in Hy0. injection Hy0 as ->. reflexivity.
Qed.

(** X10. The sign of an FWHM is ignored, since only its square is used: the
    pipeline gives the same outcome on negated FWHM values. *)
Theorem fwhm_sign_ignored :
  forall (centers fwhm : list fval) (p : scene_params) (w : world slice),
    run centers (map fneg fwhm) p w = run centers fwhm p w.
Proof.
  intros centers fwhm p w. rewrite !generate_template_run.
  rewrite existsb_non_finite_fneg, length_map.
  destruct (dataset_noms w) as [d|]; [| reflexivity].
  unfold lograd_of. rewrite response_matrix_fneg. reflexivity.
Qed.

End SingleBands.

Lemma zero_fwhm_coefficient_witness :
  exists target,
    fst (generate_template_from_bands unit (constant_radiance 1)
           [Fin 1; Fin 2] [Fin 1; Fin 0] example_params example_world)
    = Returned target /\
    nth_error target 1 = Some (2%nat, Fin 2, 0).
Proof.
  destruct example_run_returns as [Y Hrun].
  eexists. split; [rewrite Hrun; reflexivity |].
  apply (zero_fwhm_coefficient unit (constant_radiance 1)
           [Fin 1; Fin 2] [Fin 1; Fin 0] example_params example_world
           _ 1%nat (Fin 2) (f_equal fst Hrun)); reflexivity.
Defined.

Lemma band_coefficient_local_witness :
  exists target coefficient,
    fst (generate_template_from_bands unit (constant_radiance 1)
           [Fin 1; Fin 2] [Fin 1; Fin 0] example_params example_world)
    = Returned target /\
    nth_error target 0 = Some (1%nat, Fin 1, coefficient) /\
    fst (generate_template_from_bands unit (constant_radiance 1)
           [Fin 1] [Fin 1] example_params example_world)
    = Returned [(1%nat, Fin 1, coefficient)].
Proof.
  destruct example_run_returns as [Y Hrun].
  destruct (band_coefficient_local unit (constant_radiance 1)
              [Fin 1; Fin 2] [Fin 1; Fin 0] example_params example_world
              _ 0%nat (Fin 1) (Fin 1) (f_equal fst Hrun) eq_refl eq_refl)
    as [coefficient [H1 H2]].
  eexists. exists coefficient.
  split; [rewrite Hrun; reflexivity |]. split; assumption.
Defined.

(** ** Resampling and regression *)

Lemma fdot_Fin row ms :
  fdot row (map Fin ms)
  = Fin (rsum (map (fun rm => fst rm * snd rm) (combine row ms))).
Proof.
  unfold fdot, fsum, rsum. revert ms.
  induction row as [|r row IH]; intros [|m ms];
    cbn [map combine fold_right fst snd]; try reflexivity.
  rewrite IH. reflexivity.
Qed.

Lemma weighted_sum_bounds row ms lo hi :
  length row = length ms ->
  Forall (fun m => 0 <= m) ms ->
  Forall (fun r => lo <= r <= hi) row ->
  lo * rsum ms <= rsum (map (fun rm => fst rm * snd rm) (combine row ms))
  <= hi * rsum ms.
Proof.
  unfold rsum. intros Hlen Hms. revert row Hlen.
  induction Hms as [|m ms Hm _ IH]; intros [|r row] Hlen Hrow;
    try discriminate; cbn [map combine fold_right fst snd].
  - lra.
  - inversion Hrow as [|? ? Hr Hrow']; subst.
    specialize (IH row ltac:(cbn in Hlen; congruence) Hrow'). nra.
Qed.

(** X11. Resampling through a band that the program normalizes, one whose
    weights sum to more than zero, is a weighted mean with weights that are
    not negative: the resampled radiance of a row is finite and lies
    between any two bounds of the radiances of the row.  In particular a
    row of positive radiances resamples to a positive radiance, whose
    logarithm is then taken as it is. *)
Theorem resampled_within_bounds :
  forall (wave : list R) (c f : R) (row : list R) (lo hi : R),
    normalized_band wave c f ->
    length row = length wave ->
    Forall (fun r => lo <= r <= hi) row ->
    exists r,
      fdot row (normalize_column
                  (response_column wave (Fin c) (gaussian_sigma (Fin f))))
      = Fin r /\
      lo <= r <= hi /\
      (0 < lo ->
       np_log_where
         (fdot row (normalize_column
                      (response_column wave (Fin c) (gaussian_sigma (Fin f)))))
       = Fin (ln r)).
Proof.
  intros wave c f row lo hi Hn Hlen Hrow.
  destruct (normalized_band_weights wave c f Hn)
    as [ms [-> [Hsum [Hlms Hpos]]]].
  rewrite fdot_Fin. eexists. split; [reflexivity |].
  assert (Hb : lo * rsum ms
               <= rsum (map (fun rm => fst rm * snd rm) (combine row ms))
               <= hi * rsum ms).
  { apply weighted_sum_bounds; [congruence | assumption | assumption]. }
  rewrite Hsum in Hb. split; [lra |].
  intro Hlo. apply np_log_where_pos. lra.
Qed.

Lemma resampled_within_bounds_witness :
  exists r,
    fdot [3; 5] (normalize_column
                   (response_column [1; 2] (Fin 1) (gaussian_sigma (Fin 1))))
    = Fin r /\
    3 <= r <= 5.
Proof.
  destruct (resampled_within_bounds [1; 2] 1 1 [3; 5] 3 5) as [r [H1 [H2 _]]].
  - apply centered_band_normalized; [left; reflexivity | exact variance_in_range_1].
  - reflexivity.
  - repeat constructor; lra.
  - exists r. split; assumption.
Defined.

Lemma moments_add (A : list (R * R)) (y1 y2 : list R) :
  length y1 = length y2 ->
  moment1 A (map (fun q => fst q + snd q) (combine y1 y2))
  = moment1 A y1 + moment1 A y2 /\
  moment2 A (map (fun q => fst q + snd q) (combine y1 y2))
  = moment2 A y1 + moment2 A y2.
Proof.
  unfold moment1, moment2, rsum. revert y1 y2.
  induction A as [|a A' IH]; intros [|b1 y1] [|b2 y2] H; try discriminate;
    cbn [map combine fold_right fst snd]; try (split; ring).
  destruct (IH y1 y2 ltac:(cbn in H; congruence)) as [-> ->]. split; ring.
Qed.

Lemma moments_scale (A : list (R * R)) (k : R) (y : list R) :
  moment1 A (map (Rmult k) y) = k * moment1 A y /\
  moment2 A (map (Rmult k) y) = k * moment2 A y.
Proof.
  unfold moment1, moment2, rsum. revert y.
  induction A as [|a A' IH]; intros [|b y];
    cbn [map combine fold_right fst snd]; try (split; ring).
  destruct (IH y) as [-> ->]. split; ring.
Qed.

Lemma moments_shift (cs : list R) (k : R) (y : list R) :
  length y = length cs ->
  moment1 (design_matrix cs) (map (Rplus k) y)
  = k * gram11 (design_matrix cs) + moment1 (design_matrix cs) y /\
  moment2 (design_matrix cs) (map (Rplus k) y)
  = k * gram12 (design_matrix cs) + moment2 (design_matrix cs) y.
Proof.
  unfold moment1, moment2, gram11, gram12, design_matrix, rsum. revert y.
  induction cs as [|c cs IH]; intros [|b y] H; try discriminate;
    cbn [map combine fold_right fst snd]; try (split; ring).
  destruct (IH y ltac:(cbn in H; congruence)) as [-> ->]. split; ring.
Qed.

(** X12. The coefficient of a band is linear in the logarithms it is fitted
    to: it is additive, commutes with scaling, and does not change when
    the same constant is added to all eight logarithms. *)
Theorem band_coefficient_linear :
  (forall y1 y2 : list R,
      length y1 = length y2 ->
      band_coefficient (map (fun q => fst q + snd q) (combine y1 y2))
      = band_coefficient y1 + band_coefficient y2) /\
  (forall (k : R) (y : list R),
      band_coefficient (map (Rmult k) y) = k * band_coefficient y) /\
  (forall (k : R) (y : list R),
      length y = length concentrations ->
      band_coefficient (map (Rplus k) y) = band_coefficient y).
Proof.
  pose proof design_full_rank as Hdet.
  unfold band_coefficient, lstsq2. cbn [snd]. unfold gram_det in *.
  split; [| split].
  - intros y1 y2 H.
    destruct (moments_add (design_matrix concentrations) y1 y2 H) as [-> ->].
    field. exact Hdet.
  - intros k y.
    destruct (moments_scale (design_matrix concentrations) k y) as [-> ->].
    field. exact Hdet.
  - intros k y H.
    destruct (moments_shift concentrations k y H) as [-> ->].
    field. exact Hdet.
Qed.

Lemma band_coefficient_linear_witness :
  band_coefficient (map (Rplus 7) [1; 2; 3; 4; 5; 6; 7; 8])
  = band_coefficient [1; 2; 3; 4; 5; 6; 7; 8].
Proof.
  apply (proj2 (proj2 band_coefficient_linear) 7 [1; 2; 3; 4; 5; 6; 7; 8]).
  reflexivity.
Defined.

(** X13. The coefficient of a band does not depend on the unit of the
    radiances: when the resampled radiances of the band are all positive,
    multiplying the whole library by a positive constant changes the
    logarithms but leaves the coefficient as it is. *)
Theorem coefficient_scale_invariant :
  forall (k : R) (rads : list (list R)) (col : list fval) (rs : list R),
    0 < k ->
    length rads = length concentrations ->
    map (fun row => fdot row col) rads = map Fin rs ->
    Forall (fun r => 0 < r) rs ->
    exists y y',
      map np_log_where (map (fun row => fdot row col) rads) = map Fin y /\
      map np_log_where (map (fun row => fdot row col) (scale_library k rads))
      = map Fin y' /\
      band_coefficient y' = band_coefficient y.
Proof.
  intros k rads col rs Hk Hlen Hrs Hpos.
  exists (map ln rs), (map (Rplus (ln k)) (map ln rs)).
  assert (Hlog : forall l, Forall (fun r => 0 < r) l ->
             map np_log_where (map Fin l) = map Fin (map ln l)).
  { intros l Hl. rewrite !map_map. apply map_ext_Forall.
    eapply Forall_impl; [| exact Hl]. intros r Hr. apply np_log_where_pos, Hr. }
  split; [| split].
  - rewrite Hrs. apply Hlog, Hpos.
  - assert (E : map (fun row => fdot row col) (scale_library k rads)
                = map (fmul (Fin k)) (map Fin rs)).
    { rewrite <- Hrs. unfold scale_library. rewrite !map_map.
      apply map_ext. intro row. apply fdot_scale. }
    rewrite E, !map_map. apply map_ext_Forall.
    eapply Forall_impl; [| exact Hpos]. intros r Hr. cbn.
    rewrite np_log_where_pos by nra. rewrite ln_mult by assumption.
    reflexivity.
  - apply (proj2 (proj2 band_coefficient_linear)).
    rewrite length_map, <- Hlen.
    rewrite <- (length_map Fin rs), <- Hrs, length_map. reflexivity.
Qed.

Lemma coefficient_scale_invariant_witness :
  exists y y',
    map np_log_where
      (map (fun row => fdot row [Fin 1])
           [[1]; [2]; [3]; [4]; [5]; [6]; [7]; [8]])
    = map Fin y /\
    map np_log_where
      (map (fun row => fdot row [Fin 1])
           (scale_library 10 [[1]; [2]; [3]; [4]; [5]; [6]; [7]; [8]]))
    = map Fin y' /\
    band_coefficient y' = band_coefficient y.
Proof.
  apply (coefficient_scale_invariant 10
           [[1]; [2]; [3]; [4]; [5]; [6]; [7]; [8]] [Fin 1]
           [1; 2; 3; 4; 5; 6; 7; 8]).
  - lra.
  - reflexivity.
  - cbn. repeat f_equal; ring.
  - repeat constructor; lra.
Defined.

(** X14. The sign of the coefficient follows the trend of the logarithms
    along the ladder: logarithms that do not increase with the
    concentration, as for an absorbing gas, give a coefficient that is not
    positive, and logarithms that do not decrease give one that is not
    negative. *)
Theorem band_coefficient_sign :
  forall y0 y1 y2 y3 y4 y5 y6 y7 : R,
    (y0 >= y1 -> y1 >= y2 -> y2 >= y3 -> y3 >= y4 -> y4 >= y5 -> y5 >= y6 ->
     y6 >= y7 ->
     band_coefficient [y0; y1; y2; y3; y4; y5; y6; y7] <= 0) /\
    (y0 <= y1 -> y1 <= y2 -> y2 <= y3 -> y3 <= y4 -> y4 <= y5 -> y5 <= y6 ->
     y6 <= y7 ->
     0 <= band_coefficient [y0; y1; y2; y3; y4; y5; y6; y7]).
Proof.
  intros y0 y1 y2 y3 y4 y5 y6 y7.
  unfold band_coefficient, lstsq2, gram_det. cbn [snd].
  destruct design_grams as [-> [-> ->]].
  unfold moment1, moment2, design_matrix, concentrations, rsum, SCALING.
  cbn [map combine fold_right fst snd].
  assert (Hinv : 0 < / (8 * 1365250000 - 63500 * 63500))
    by (apply Rinv_0_lt_compat; lra).
  unfold Rdiv. split; intros.
  - match goal with
    | |- ?N * _ * _ <= 0 => assert (HN : N <= 0) by lra; revert HN; generalize N
    end.
    intros n Hn. nra.
  - match goal with
    | |- 0 <= ?N * _ * _ => assert (HN : 0 <= N) by lra; revert HN; generalize N
    end.
    intros n Hn. nra.
Qed.

Lemma band_coefficient_sign_witness :
  band_coefficient [8; 7; 6; 5; 4; 3; 2; 1] <= 0.
Proof.
  apply (proj1 (band_coefficient_sign 8 7 6 5 4 3 2 1)); lra.
Defined.



(** ** Normalization of the bands *)





Section FarBands.

Variable slice : Type.
Variable map_coordinates : slice -> list R -> spline_order -> R.

Local Abbreviation run := (generate_template_from_bands slice map_coordinates).


End FarBands.


(** ** A library of known slope *)

(** [methane_of_index] undoes the methane mapper on the concentrations
    that are not negative. *)
Lemma methane_of_index_inverse (c : R) :
  0 <= c -> methane_of_index (get_5deg_methane_index c) = c.
Proof.
  intro Hc. unfold methane_of_index, get_5deg_methane_index.
  destruct (Rle_dec c 0).
  - destruct (Rlt_dec 0 1); lra.
  - destruct (Rlt_dec c 1000).
    + destruct (Rlt_dec (c / 1000) 1); [field | exfalso; lra].
    + pose proof (log2_ge_1 (c / 500) ltac:(lra)) as Hl.
      destruct (Rlt_dec (log2 (c / 500)) 1); [exfalso; lra |].
      unfold log2.
      replace (ln (c / 500) / ln 2 * ln 2) with (ln (c / 500))
        by (field; pose proof ln2_pos; lra).
      rewrite exp_ln by lra. field.
Qed.

Lemma concentrations_nonneg (c : R) : In c concentrations -> 0 <= c.
Proof.
  unfold concentrations. cbn [In]. intros H.
  repeat (destruct H as [<- | H]; [lra |]). destruct H.
Qed.

Section Recovery.

Variable slice : Type.
Variable map_coordinates : slice -> list R -> spline_order -> R.
Variables (a b : R) (p : scene_params) (d : dataset slice).

(** The grid interpolates, at every wavelength and every concentration of
    the ladder, to the radiance [exp (a + b * concentration)]. *)
Hypothesis synthetic :
  forall im c,
    In im (grid_5deg_data d) -> In c concentrations ->
    map_coordinates im
      (get_5deg_lookup_index (zenith p) (sensor p) (ground p) (water p) c)
      (order p)
    = exp (a + b * c).

Lemma synthetic_library :
  library_of slice map_coordinates d p
  = map (fun c => map (fun _ => exp (a + b * c)) (grid_5deg_data d))
        concentrations.
Proof.
  unfold library_of. apply map_ext_in. intros c Hc.
  unfold spline_5deg_lookup. apply map_ext_in. intros im Him.
  apply synthetic; assumption.
Qed.

Hypothesis well_shaped : length (grid_5deg_data d) = length (wave d).

(** The logarithms of the resampled synthetic library, for a band that the
    program normalizes, are the affine values themselves. *)
Lemma synthetic_lograd_column c f :
  normalized_band (wave d) c f ->
  map np_log_where
    (map (fun row =>
            fdot row (normalize_column
                        (response_column (wave d) (Fin c) (gaussian_sigma (Fin f)))))
         (library_of slice map_coordinates d p))
  = map Fin (map (fun c => a + b * c) concentrations).
Proof.
  intro Hn.
  destruct (normalized_band_weights (wave d) c f Hn)
    as [ms [-> [Hsum [Hlen _]]]].
  rewrite synthetic_library, !map_map. apply map_ext. intro ck.
  rewrite fdot_constant_row by congruence.
  rewrite Hsum, Rmult_1_r. apply np_log_where_exp.
Qed.

Lemma synthetic_lograd_nth centers fwhm Y j c f :
  lograd_of slice map_coordinates d centers fwhm p = map (map Fin) Y ->
  nth_error centers j = Some (Fin c) -> nth_error fwhm j = Some (Fin f) ->
  normalized_band (wave d) c f ->
  nth_error Y j = Some (map (fun c => a + b * c) concentrations).
Proof.
  intros HY Hc Hf Hf0.
  assert (H : nth_error (lograd_of slice map_coordinates d centers fwhm p) j
              = Some (map Fin (map (fun c => a + b * c) concentrations))).
  { unfold lograd_of, resample, response_matrix. rewrite !map_map.
    rewrite nth_error_map, (nth_error_combine _ _ _ _ _ _ _ Hc Hf).
    cbn [option_map fst snd]. f_equal. apply synthetic_lograd_column, Hf0. }
  rewrite HY, nth_error_map in H.
  destruct (nth_error Y j) as [yj|]; [| discriminate].
  cbn in H. injection H as H. f_equal. apply map_Fin_injective, H.
Qed.

End Recovery.

(** X18. A library of known slope is recovered through the whole
    pipeline: when the grid interpolates to [exp (a + b * concentration)]
    at every wavelength and every concentration of the ladder, the
    pipeline, on valid band descriptors and a well-shaped dataset, returns
    [b * 1e5] for every band that it normalizes, that is, whose weights sum
    to more than zero. *)
Theorem synthetic_library_recovered :
  forall (slice : Type) (map_coordinates : slice -> list R -> spline_order -> R)
         (centers fwhm : list fval) (p : scene_params)
         (w : world slice) (d : dataset slice) (a b : R),
    Forall finite centers -> Forall finite fwhm ->
    length centers = length fwhm ->
    dataset_noms w = Some d ->
    length (grid_5deg_data d) = length (wave d) ->
    (forall im c,
        In im (grid_5deg_data d) -> In c concentrations ->
        map_coordinates im
          (get_5deg_lookup_index (zenith p) (sensor p) (ground p) (water p) c)
          (order p)
        = exp (a + b * c)) ->
    exists target,
      generate_template_from_bands slice map_coordinates centers fwhm p w
      = (Returned target, opened slice w) /\
      forall j c f,
        nth_error centers j = Some (Fin c) ->
        nth_error fwhm j = Some (Fin f) ->
        normalized_band (wave d) c f ->
        nth_error target j = Some (S j, Fin c, b * 100000).
Proof.
  intros slice map_coordinates centers fwhm p w d a b Hc Hf Hlen Hd Hshape Hsyn.
  destruct (generate_template_returns slice map_coordinates centers fwhm p w d
              Hc Hf Hlen Hd Hshape) as [Y [HY Hrun]].
  eexists. split; [exact Hrun |].
  intros j c f Hcj Hfj Hn.
  pose proof (synthetic_lograd_nth slice map_coordinates a b p d Hsyn Hshape
                centers fwhm Y j c f HY Hcj Hfj Hn) as HYj.
  apply stack_target_nth; [exact Hcj |].
  rewrite nth_error_map, HYj. cbn [option_map]. f_equal.
  apply band_coefficient_affine.
Qed.

Lemma synthetic_library_recovered_witness :
  exists target,
    generate_template_from_bands unit (synthetic_radiance 3 (- (1 / 100000)))
      [Fin 1; Fin 20] [Fin 1; Fin 1] example_params example_world
    = (Returned target, opened unit example_world) /\
    nth_error target 0 = Some (1%nat, Fin 1, - (1 / 100000) * 100000).
Proof.
  destruct (synthetic_library_recovered unit (synthetic_radiance 3 (- (1 / 100000)))
              [Fin 1; Fin 20] [Fin 1; Fin 1] example_params example_world
              example_dataset 3 (- (1 / 100000)))
    as [target [Hrun Hrows]].
  - repeat constructor.
  - repeat constructor.
  - reflexivity.
  - reflexivity.
  - reflexivity.
  - intros im c _ Hc. unfold synthetic_radiance, get_5deg_lookup_index.
    cbn [nth]. rewrite methane_of_index_inverse
      by (apply concentrations_nonneg, Hc).
    reflexivity.
  - exists target. split; [exact Hrun |].
    apply (Hrows 0%nat 1 1 eq_refl eq_refl).
    apply centered_band_normalized; [left; reflexivity | exact variance_in_range_1].
Defined.
